(** * play-dl: the YouTube search-result parser and the SoundCloud resolver

    A shallow embedding of [play-dl/YouTube/utils/parser.ts] and of the
    SoundCloud module (resolver, stream resolution, credential probe, kind
    probe), with the properties their specification states.

    Layout: [JS] models the fragment of JavaScript the two files rely on
    (JSON values, property access that throws on [undefined]/[null],
    truthiness, the string methods used); [Regex] is a small regular
    expression matcher for the two patterns of the sources; [Parser] is
    parser.ts; [SoundCloud] is the SoundCloud module; the theorems follow. *)

From Stdlib Require Import String Ascii List ZArith Bool Lia DecimalString.
Import ListNotations.
Local Open Scope string_scope.
Local Open Scope Z_scope.

(** ** The JavaScript fragment *)

Module JS.

(** Numbers are doubles.  The sources count, index, add and multiply
    integers: a number is here an integer that a double holds, an infinity
    or NaN.  Numbers with a fraction are not modelled, and the two zeros
    are one (nothing in the sources tells them apart). *)
Inductive number : Type :=
| NaN
| Infinity (negative : bool)
| Num (z : Z).

(** The double nearest to the integer [z], ties to the even significand:
    [z] itself up to 2^53, beyond it a multiple of the unit of its binade
    (53 significant bits), and an infinity from 2^1024 - 2^970 on. *)
Definition to_double (z : Z) : number :=
  let a := Z.abs z in
  if a <=? 2 ^ 53 then Num z
  else
    let unit := 2 ^ (Z.log2 a - 52) in
    let q := a / unit in
    let r := a mod unit in
    let q' := if 2 * r <? unit then q
              else if unit <? 2 * r then q + 1
              else if Z.even q then q else q + 1 in
    if 2 ^ 1024 <=? q' * unit then Infinity (z <? 0) else Num (Z.sgn z * (q' * unit)).

(** [a + b]: the sum of two integers, rounded. *)
Definition num_add (a b : number) : number :=
  match a, b with
  | NaN, _ | _, NaN => NaN
  | Infinity s, Infinity t => if Bool.eqb s t then Infinity s else NaN
  | Infinity s, Num _ | Num _, Infinity s => Infinity s
  | Num x, Num y => to_double (x + y)
  end.

(** [a - b].  The one subtraction of the sources is [list.length - 1],
    which no rounding touches: the length of an array or of a string is
    below 2^32.  The difference of two integers is therefore taken as it
    is; where it names a property of an object it is printed as the double
    nearest to it, by [string_of_number]. *)
Definition num_sub (a b : number) : number :=
  match a, b with
  | NaN, _ | _, NaN => NaN
  | Infinity s, Infinity t => if Bool.eqb s t then NaN else Infinity s
  | Infinity s, Num _ => Infinity s
  | Num _, Infinity t => Infinity (negb t)
  | Num x, Num y => Num (x - y)
  end.

(** [a * b]: the product of two integers, rounded. *)
Definition num_mul (a b : number) : number :=
  match a, b with
  | NaN, _ | _, NaN => NaN
  | Infinity s, Infinity t => Infinity (xorb s t)
  | Infinity s, Num y | Num y, Infinity s =>
      if y =? 0 then NaN else Infinity (xorb s (y <? 0))
  | Num x, Num y => to_double (x * y)
  end.

(** [a > 0] on numbers: false on NaN. *)
Definition num_positive (a : number) : bool :=
  match a with
  | Num z => 0 <? z
  | Infinity negative => negb negative
  | NaN => false
  end.

(** [a === b] on numbers: NaN is equal to nothing. *)
Definition num_strict_eq (a b : number) : bool :=
  match a, b with
  | Num x, Num y => x =? y
  | Infinity s, Infinity t => Bool.eqb s t
  | _, _ => false
  end.

(** Values: what [JSON.parse] builds, and [undefined] for what a lookup
    misses.  An object is the list of its own properties in source order. *)
#[local] Unset Elimination Schemes.
Inductive value : Type :=
| VUndefined
| VNull
| VBool (b : bool)
| VNumber (n : number)
| VString (s : string)
| VArray (elems : list value)
| VObject (props : list (string * value)).
#[local] Set Elimination Schemes.

(** What a [throw] carries: [new Error(message)] of the sources, the
    [TypeError] of the runtime (a property read on [undefined] or [null], a
    call of something that is not a function, a loop over something that is
    not iterable) and the [SyntaxError] of [JSON.parse]. *)
Inductive error : Type :=
| Error (message : string)
| TypeError
| SyntaxError.

Inductive result (A : Type) : Type :=
| Ok (a : A)
| Throw (e : error).
Arguments Ok {A} a.
Arguments Throw {A} e.

Definition bind {A B : Type} (m : result A) (k : A -> result B) : result B :=
  match m with
  | Ok a => k a
  | Throw e => Throw e
  end.

Declare Scope js_scope.
Delimit Scope js_scope with js.
Notation "x <- m ;; k" := (bind m (fun x => k))
  (at level 61, m at next level, right associativity) : js_scope.
Local Open Scope js_scope.

Fixpoint mapM {A B : Type} (f : A -> result B) (l : list A) : result (list B) :=
  match l with
  | [] => Ok []
  | a :: l' => b <- f a ;; bs <- mapM f l' ;; Ok (b :: bs)
  end.

(** *** Characters and strings

    A string is a sequence of code units below 256. *)

Definition code (c : ascii) : Z := Z.of_nat (nat_of_ascii c).

(** White space of the language: TAB, LF, VT, FF, CR, SP and NBSP. *)
Definition is_space (c : ascii) : bool :=
  let n := code c in
  ((9 <=? n) && (n <=? 13)) || (n =? 32) || (n =? 160).

(** Line terminators: LF and CR. *)
Definition is_line_terminator (c : ascii) : bool :=
  let n := code c in (n =? 10) || (n =? 13).

Definition is_digit (c : ascii) : bool :=
  let n := code c in (48 <=? n) && (n <=? 57).

(** The value of [c] as a digit in [radix], when it is one. *)
Definition digit_val (radix : Z) (c : ascii) : option Z :=
  let n := code c in
  let d := if (48 <=? n) && (n <=? 57) then n - 48
           else if (97 <=? n) && (n <=? 122) then n - 87
           else if (65 <=? n) && (n <=? 90) then n - 55
           else radix in
  if d <? radix then Some d else None.

Fixpoint skip_spaces (s : string) : string :=
  match s with
  | String c s' => if is_space c then skip_spaces s' else s
  | EmptyString => s
  end.

(** The digits of [s] in [radix] up to the first character that is not one,
    read most significant first on top of [acc]. *)
Fixpoint parse_digits (radix acc : Z) (s : string) : Z :=
  match s with
  | String c s' =>
      match digit_val radix c with
      | Some d => parse_digits radix (acc * radix + d) s'
      | None => acc
      end
  | EmptyString => acc
  end.

Definition starts_with_digit (radix : Z) (s : string) : bool :=
  match s with
  | String c _ => match digit_val radix c with Some _ => true | None => false end
  | EmptyString => false
  end.

(** The number of a run of digits: the double nearest to what the digits
    denote. *)
Definition parse_radix (radix : Z) (s : string) : number :=
  if starts_with_digit radix s then to_double (parse_digits radix 0 s) else NaN.

Definition is_hex_prefix (s : string) : bool :=
  match s with
  | String "0" (String "x" _) => true
  | String "0" (String "X" _) => true
  | _ => false
  end.

Definition drop_two (s : string) : string :=
  match s with
  | String _ (String _ s') => s'
  | _ => EmptyString
  end.

Definition num_neg (a : number) : number :=
  match a with
  | Num z => Num (- z)
  | Infinity negative => Infinity (negb negative)
  | NaN => NaN
  end.

(** [parseInt(s)] without a radix: leading white space, a sign, a [0x]
    prefix that selects base 16, then the longest run of digits; NaN when
    there is none.  The result is the double nearest to the integer the
    digits denote (the language lets an implementation ignore the digits
    after the twentieth; the usual ones round correctly, as here). *)
Definition parseInt (s : string) : number :=
  let s1 := skip_spaces s in
  let '(negative, s2) :=
    match s1 with
    | String "-" r => (true, r)
    | String "+" r => (false, r)
    | _ => (false, s1)
    end in
  let n := if is_hex_prefix s2 then parse_radix 16 (drop_two s2)
           else parse_radix 10 s2 in
  if negative then num_neg n else n.

Fixpoint keep_digits (s : string) : string :=
  match s with
  | String c s' => if is_digit c then String c (keep_digits s') else keep_digits s'
  | EmptyString => EmptyString
  end.

Fixpoint drop (n : nat) (s : string) : string :=
  match n, s with
  | O, _ => s
  | S n', String _ s' => drop n' s'
  | S _, EmptyString => EmptyString
  end.

(** [s.replace(pat, rep)] with a string pattern: the first occurrence only.
    ([rep] has no [$] in the sources, so it is inserted as it is.) *)
Fixpoint replace_first (pat rep s : string) : string :=
  if prefix pat s then rep ++ drop (String.length pat) s
  else match s with
       | String c s' => String c (replace_first pat rep s')
       | EmptyString => EmptyString
       end.

(** [s.includes(sub)]. *)
Fixpoint includes (sub s : string) : bool :=
  prefix sub s ||
  match s with
  | String _ s' => includes sub s'
  | EmptyString => false
  end.

Definition starts_with (sub s : string) : bool := prefix sub s.

Definition lower_char (c : ascii) : ascii :=
  let n := code c in
  if ((65 <=? n) && (n <=? 90)) ||
     ((192 <=? n) && (n <=? 222) && negb (n =? 215))
  then ascii_of_nat (nat_of_ascii c + 32)
  else c.

Fixpoint toLowerCase (s : string) : string :=
  match s with
  | String c s' => String (lower_char c) (toLowerCase s')
  | EmptyString => EmptyString
  end.

Definition rev_string (s : string) : string :=
  string_of_list_ascii (rev (list_ascii_of_string s)).

(** [s.split(sep)] for a separator that is not empty: the pieces between the
    occurrences of [sep], found left to right without overlap.  [skip]
    counts the characters of the occurrence being consumed and [cur] is the
    piece under construction, reversed. *)
Fixpoint split_aux (sep : string) (skip : nat) (cur : string) (s : string)
  : list string :=
  match s with
  | EmptyString => [rev_string cur]
  | String c s' =>
      match skip with
      | S k => split_aux sep k cur s'
      | O =>
          if prefix sep s
          then rev_string cur :: split_aux sep (Nat.pred (String.length sep)) EmptyString s'
          else split_aux sep O (String c cur) s'
      end
  end.

Definition split (sep s : string) : list string := split_aux sep O EmptyString s.

Fixpoint join (sep : string) (l : list string) : string :=
  match l with
  | [] => EmptyString
  | [x] => x
  | x :: l' => x ++ sep ++ join sep l'
  end.

Definition print_integer (z : Z) : string := NilZero.string_of_int (Z.to_int z).

(** The double nearest to [d] is [a]. *)
Definition is_double (a d : Z) : bool :=
  match to_double d with
  | Num d' => d' =? a
  | _ => false
  end.

(** The integer of the fewest significant digits that the double [a] is
    the nearest to, and of those the nearest to [a], the even one of two:
    the multiples of [10 ^ e] around [a] are tried for [e] going down. *)
Fixpoint shortest (fuel : nat) (e : Z) (a : Z) : Z :=
  match fuel with
  | O => a
  | S fuel' =>
      let p := 10 ^ e in
      let low := (a / p) * p in
      let high := low + p in
      let ok_low := is_double a low in
      let ok_high := is_double a high in
      if ok_low && ok_high then
        if a - low <? high - a then low
        else if high - a <? a - low then high
        else if Z.even (a / p) then low else high
      else if ok_low then low
      else if ok_high then high
      else shortest fuel' (e - 1) a
  end.

Fixpoint strip_zeros (digits : list ascii) : list ascii :=
  match digits with
  | "0"%char :: digits' => strip_zeros digits'
  | _ => digits
  end.

Definition strip_trailing_zeros (s : string) : string :=
  string_of_list_ascii (rev (strip_zeros (rev (list_ascii_of_string s)))).

(** Number::toString of a positive integer double: its digits up to 2^53;
    beyond, the fewest digits that tell it from its neighbours, followed by
    zeros below 10^21 and in exponent notation from there on. *)
Definition print_positive (a : Z) : string :=
  if a <=? 2 ^ 53 then print_integer a
  else
    let digits := String.length (print_integer a) in
    let v := shortest digits (Z.of_nat digits - 1) a in
    let text := print_integer v in
    if v <? 10 ^ 21 then text
    else
      match strip_trailing_zeros text with
      | String c rest =>
          String c (match rest with EmptyString => EmptyString | _ => "." ++ rest end)
          ++ "e+" ++ print_integer (Z.of_nat (String.length text) - 1)
      | EmptyString => text
      end.

(** Number::toString.  An integer is printed as the double nearest to it. *)
Definition string_of_number (n : number) : string :=
  match n with
  | NaN => "NaN"
  | Infinity false => "Infinity"
  | Infinity true => "-Infinity"
  | Num z =>
      match to_double z with
      | Num d => if d <? 0 then "-" ++ print_positive (- d) else print_positive d
      | Infinity false => "Infinity"
      | Infinity true => "-Infinity"
      | NaN => "NaN"
      end
  end.

(** *** Conversions *)

Definition nullish (v : value) : bool :=
  match v with
  | VUndefined | VNull => true
  | _ => false
  end.

(** ToBoolean: [if (v)], [!v], [a || b], [c ? x : y]. *)
Definition truthy (v : value) : bool :=
  match v with
  | VUndefined | VNull => false
  | VBool b => b
  | VNumber NaN => false
  | VNumber (Infinity _) => true
  | VNumber (Num z) => negb (z =? 0)
  | VString s => negb (String.eqb s "")
  | VArray _ | VObject _ => true
  end.

(** ToString, as a template literal, [+] with a string, and [join] apply
    it: an array prints its elements separated by commas, [undefined] and
    [null] elements as nothing; a plain object prints as [[object Object]]. *)
Fixpoint to_string (v : value) : string :=
  match v with
  | VUndefined => "undefined"
  | VNull => "null"
  | VBool true => "true"
  | VBool false => "false"
  | VNumber n => string_of_number n
  | VString s => s
  | VArray l =>
      join "," (map (fun x => match x with
                              | VUndefined | VNull => EmptyString
                              | _ => to_string x
                              end) l)
  | VObject _ => "[object Object]"
  end.

(** The element of [join]: ToString, but nothing for [undefined] and [null]. *)
Definition join_item (v : value) : string :=
  if nullish v then EmptyString else to_string v.

Fixpoint all_in_radix (radix : Z) (s : string) : bool :=
  match s with
  | String c s' =>
      match digit_val radix c with Some _ => all_in_radix radix s' | None => false end
  | EmptyString => true
  end.

(** A numeral of [radix]: digits only, and at least one. *)
Definition numeral (radix : Z) (s : string) : number :=
  if all_in_radix radix s && negb (String.eqb s "")
  then to_double (parse_digits radix 0 s) else NaN.

Definition trim (s : string) : string :=
  rev_string (skip_spaces (rev_string (skip_spaces s))).

(** ToNumber of a string, for the numerals that denote integers: the empty
    string is 0, a signed decimal numeral and a [0x] numeral are the double
    nearest to their value, and [Infinity] is itself.  Everything else is
    NaN (numerals with a fraction or an exponent denote no integer and are
    outside this model, like such numbers). *)
Definition string_to_number (s : string) : number :=
  let t := trim s in
  if String.eqb t "Infinity" || String.eqb t "+Infinity" then Infinity false
  else if String.eqb t "-Infinity" then Infinity true
  else
    match t with
    | EmptyString => Num 0
    | String "-" r => num_neg (numeral 10 r)
    | String "+" r => numeral 10 r
    | _ => if is_hex_prefix t then numeral 16 (drop_two t) else numeral 10 t
    end.

(** ToNumber, as [-] applies it to its operands. *)
Definition to_number (v : value) : number :=
  match v with
  | VUndefined => NaN
  | VNull => Num 0
  | VBool true => Num 1
  | VBool false => Num 0
  | VNumber n => n
  | VString s => string_to_number s
  | VArray _ | VObject _ => string_to_number (to_string v)
  end.

(** *** Property access *)

Fixpoint lookup (k : string) (props : list (string * value)) : value :=
  match props with
  | [] => VUndefined
  | (k', v) :: rest => if String.eqb k k' then v else lookup k rest
  end.

Definition string_length (s : string) : number := Num (Z.of_nat (String.length s)).

(** The character of [s] at index [i], as a string of length one. *)
Definition char_at (s : string) (i : nat) : value :=
  match String.get i s with
  | Some c => VString (String c EmptyString)
  | None => VUndefined
  end.

(** [v.k] for the property names the sources read: none of them is a
    method or an inherited property, so on an array or a string only
    [length] is there, and on a number or a boolean nothing is.  Reading a
    property of [undefined] or [null] throws. *)
Definition get (v : value) (k : string) : result value :=
  match v with
  | VUndefined | VNull => Throw TypeError
  | VObject props => Ok (lookup k props)
  | VArray l =>
      Ok (if String.eqb k "length" then VNumber (Num (Z.of_nat (List.length l)))
          else VUndefined)
  | VString s =>
      Ok (if String.eqb k "length" then VNumber (string_length s) else VUndefined)
  | VBool _ | VNumber _ => Ok VUndefined
  end.

(** [v[i]] for a number [i]: the element of an array, the character of a
    string, the property of an object whose name is [i] printed. *)
Definition item (v : value) (i : number) : result value :=
  match v with
  | VUndefined | VNull => Throw TypeError
  | VArray l =>
      Ok (match i with
          | Num z => if 0 <=? z then nth (Z.to_nat z) l VUndefined else VUndefined
          | NaN | Infinity _ => VUndefined
          end)
  | VString s =>
      Ok (match i with
          | Num z => if 0 <=? z then char_at s (Z.to_nat z) else VUndefined
          | NaN | Infinity _ => VUndefined
          end)
  | VObject props => Ok (lookup (string_of_number i) props)
  | VBool _ | VNumber _ => Ok VUndefined
  end.

(** [v?.k ...]: when [v] is [undefined] or [null] the rest of the chain is
    not evaluated and the chain is [undefined]. *)
Definition optional (v : value) (k : value -> result value) : result value :=
  if nullish v then Ok VUndefined else k v.

(** [a ?? b] with a [b] that cannot throw. *)
Definition coalesce (a b : value) : value := if nullish a then b else a.

(** [a || b] with a [b] that cannot throw. *)
Definition or_else (a b : value) : value := if truthy a then a else b.

(** The receiver of a string method ([split], [replace], [toLowerCase],
    [includes], [startsWith]): on anything but a string the method is not
    there and the call throws. *)
Definition as_string (v : value) : result string :=
  match v with
  | VString s => Ok s
  | _ => Throw TypeError
  end.

(** The receiver of [map]: arrays only. *)
Definition as_array (v : value) : result (list value) :=
  match v with
  | VArray l => Ok l
  | _ => Throw TypeError
  end.

Fixpoint chars (s : string) : list value :=
  match s with
  | String c s' => VString (String c EmptyString) :: chars s'
  | EmptyString => []
  end.

(** What [for (const x of v)] walks: the elements of an array, the
    characters of a string; nothing else is iterable. *)
Definition iterate (v : value) : result (list value) :=
  match v with
  | VArray l => Ok l
  | VString s => Ok (chars s)
  | _ => Throw TypeError
  end.

End JS.

(** ** Regular expressions

    The two patterns of the sources use literals, character classes,
    sequence, alternation, option and star.  Matching is by derivatives. *)

Module Regex.

Inductive regex : Type :=
| Void
| Eps
| Class (p : ascii -> bool)
| Seq (r1 r2 : regex)
| Alt (r1 r2 : regex)
| Star (r : regex).

Definition Chr (c : ascii) : regex := Class (Ascii.eqb c).

Fixpoint Lit (s : string) : regex :=
  match s with
  | String c s' => Seq (Chr c) (Lit s')
  | EmptyString => Eps
  end.

Definition Opt (r : regex) : regex := Alt r Eps.

(** [.]: any character but a line terminator. *)
Definition Dot : regex := Class (fun c => negb (JS.is_line_terminator c)).

(** [\s] *)
Definition Space : regex := Class JS.is_space.

Fixpoint nullable (r : regex) : bool :=
  match r with
  | Void => false
  | Eps => true
  | Class _ => false
  | Seq r1 r2 => nullable r1 && nullable r2
  | Alt r1 r2 => nullable r1 || nullable r2
  | Star _ => true
  end.

Fixpoint deriv (c : ascii) (r : regex) : regex :=
  match r with
  | Void => Void
  | Eps => Void
  | Class p => if p c then Eps else Void
  | Seq r1 r2 =>
      if nullable r1 then Alt (Seq (deriv c r1) r2) (deriv c r2)
      else Seq (deriv c r1) r2
  | Alt r1 r2 => Alt (deriv c r1) (deriv c r2)
  | Star r1 => Seq (deriv c r1) (Star r1)
  end.

(** [^r$]: the whole of [s] matches [r]. *)
Fixpoint matches (r : regex) (s : string) : bool :=
  match s with
  | EmptyString => nullable r
  | String c s' => matches (deriv c r) s'
  end.

(** [r] matches at the start of [s]: some prefix of [s] matches [r]. *)
Fixpoint matches_prefix (r : regex) (s : string) : bool :=
  nullable r ||
  match s with
  | EmptyString => false
  | String c s' => matches_prefix (deriv c r) s'
  end.

(** [s.split(r)[0]] for an [r] that matches no empty string: what precedes
    the first place where [r] matches (the whole of [s] when there is none). *)
Fixpoint before_first (r : regex) (s : string) : string :=
  match s with
  | EmptyString => EmptyString
  | String c s' =>
      if matches_prefix r s then EmptyString else String c (before_first r s')
  end.

(** The language of a regular expression, to state what [matches] decides. *)
Inductive lang : regex -> string -> Prop :=
| lang_eps : lang Eps EmptyString
| lang_class p c : p c = true -> lang (Class p) (String c EmptyString)
| lang_seq r1 r2 s1 s2 : lang r1 s1 -> lang r2 s2 -> lang (Seq r1 r2) (s1 ++ s2)
| lang_alt_l r1 r2 s : lang r1 s -> lang (Alt r1 r2) s
| lang_alt_r r1 r2 s : lang r2 s -> lang (Alt r1 r2) s
| lang_star_nil r : lang (Star r) EmptyString
| lang_star_cons r s1 s2 : lang r s1 -> lang (Star r) s2 -> lang (Star r) (s1 ++ s2).

End Regex.

(** ** parser.ts *)

Module Parser.
Import JS.
Local Open Scope js_scope.

(** [ParseSearchInterface].  A field left out is [None]; [type] is typed as
    one of three strings, and the code still has a branch for any other. *)
Record ParseSearchInterface : Type := {
  type : option string;
  limit : option number;
  language : option string
}.

(** The entities.  [YouTubeVideo], [YouTubeChannel] and [YouTubePlayList]
    are classes of other files; an entity is identified here with the
    record [parseVideo], [parseChannel] or [parsePlaylist] hands to its
    constructor, field by field. *)
Record ChannelIcon : Type := {
  icon_url : string;
  icon_width : value;
  icon_height : value
}.

Record YouTubeChannel : Type := {
  channel_id : value;
  channel_name : value;
  channel_icon : ChannelIcon;
  channel_url : string;
  channel_verified : bool;
  channel_artist : bool;
  channel_subscribers : value
}.

Record VideoChannel : Type := {
  owner_id : value;
  owner_name : value;
  owner_url : string;
  owner_icons : value;
  owner_verified : bool;
  owner_artist : bool
}.

Record YouTubeVideo : Type := {
  video_id : value;
  video_url : string;
  video_title : value;
  video_description : string;
  video_duration : number;
  video_duration_raw : value;
  video_thumbnails : value;
  video_channel : VideoChannel;
  video_uploadedAt : value;
  video_views : value;
  video_live : bool
}.

Record PlaylistThumbnail : Type := {
  pthumb_id : value;
  pthumb_url : value;
  pthumb_height : value;
  pthumb_width : value
}.

Record PlaylistChannel : Type := {
  pchannel_id : value;
  pchannel_name : value;
  pchannel_url : string
}.

Record YouTubePlayList : Type := {
  playlist_id : value;
  playlist_title : value;
  playlist_thumbnail : PlaylistThumbnail;
  playlist_channel : PlaylistChannel;
  playlist_videos : number
}.

(** [YouTube]: what a search returns.  A playlist is built with the second
    constructor argument [true]. *)
Inductive YouTube : Type :=
| Video (v : YouTubeVideo)
| Channel (c : YouTubeChannel)
| PlayList (p : YouTubePlayList) (searched : bool).

(** [parseDuration], lines 68-85.  The argument is typed as a string and is
    whatever [lengthText.simpleText] holds. *)
Definition parseDuration (duration : value) : result number :=
  if negb (truthy duration) then Ok (Num 0)
  else
    s <- as_string duration ;;
    Ok (match split ":" s with
        | [a0; a1; a2] =>
            num_add (num_add (num_mul (num_mul (parseInt a0) (Num 60)) (Num 60))
                             (num_mul (parseInt a1) (Num 60)))
                    (parseInt a2)
        | [a0; a1] => num_add (num_mul (parseInt a0) (Num 60)) (parseInt a1)
        | a0 :: _ => parseInt a0
        | [] => NaN
        end).

(** [r.ownerBadges?.[0]?.metadataBadgeRenderer?.style?.toLowerCase()],
    lines 93 and 124. *)
Definition badge_of (renderer : value) : result value :=
  badges <- get renderer "ownerBadges" ;;
  optional badges (fun badges =>
    first <- item badges (Num 0) ;;
    optional first (fun first =>
      meta <- get first "metadataBadgeRenderer" ;;
      optional meta (fun meta =>
        style <- get meta "style" ;;
        optional style (fun style =>
          s <- as_string style ;; Ok (VString (toLowerCase s)))))).

(** [Boolean(badge?.includes(word))], lines 108-109 and 145-146. *)
Definition badge_has (badge : value) (word : string) : result bool :=
  r <- optional badge (fun b => s <- as_string b ;; Ok (VBool (includes word s))) ;;
  Ok (truthy r).

(** The template of lines 94-97 and 139-142 on the object [owner] that
    holds [navigationEndpoint]. *)
Definition canonical_url (owner : value) : result string :=
  nav <- get owner "navigationEndpoint" ;;
  browse <- get nav "browseEndpoint" ;;
  base <- get browse "canonicalBaseUrl" ;;
  path <- (if truthy base then Ok base
           else
             cmd <- get nav "commandMetadata" ;;
             web <- get cmd "webCommandMetadata" ;;
             get web "url") ;;
  Ok ("https://www.youtube.com" ++ to_string path).

(** [list[list.length - 1]], lines 98 and 164. *)
Definition last_of (list : value) : result value :=
  len <- get list "length" ;;
  item list (num_sub (to_number len) (Num 1)).

Definition Failed_Channel : error := Error "Failed to Parse YouTube Channel".
Definition Failed_Video : error := Error "Failed to Parse YouTube Video".
Definition Failed_Playlist : error := Error "Failed to Parse YouTube Playlist".

(** [parseChannel], lines 91-114. *)
Definition parseChannel (data : value) : result YouTubeChannel :=
  if negb (truthy data) then Throw Failed_Channel
  else
    renderer <- get data "channelRenderer" ;;
    if negb (truthy renderer) then Throw Failed_Channel
    else
      badge <- badge_of renderer ;;
      url <- canonical_url renderer ;;
      holder <- get renderer "thumbnail" ;;
      thumbnails <- get holder "thumbnails" ;;
      thumbnail <- last_of thumbnails ;;
      id <- get renderer "channelId" ;;
      title <- get renderer "title" ;;
      name <- get title "simpleText" ;;
      turl <- get thumbnail "url" ;;
      turl <- as_string turl ;;
      width <- get thumbnail "width" ;;
      height <- get thumbnail "height" ;;
      verified <- badge_has badge "verified" ;;
      artist <- badge_has badge "artist" ;;
      count <- get renderer "subscriberCountText" ;;
      subs <- optional count (fun count => get count "simpleText") ;;
      Ok {| channel_id := id;
            channel_name := name;
            channel_icon := {| icon_url := replace_first "//" "https://" turl;
                               icon_width := width;
                               icon_height := height |};
            channel_url := url;
            channel_verified := verified;
            channel_artist := artist;
            channel_subscribers := coalesce subs (VString "0 subscribers") |}.

(** The [description] of lines 130-132. *)
Definition description_of (renderer : value) : result string :=
  snippets <- get renderer "detailedMetadataSnippets" ;;
  len <- optional snippets (fun snippets =>
           first <- item snippets (Num 0) ;;
           text <- get first "snippetText" ;;
           runs <- get text "runs" ;;
           get runs "length") ;;
  if truthy len then
    first <- item snippets (Num 0) ;;
    text <- get first "snippetText" ;;
    runs <- get text "runs" ;;
    runs <- as_array runs ;;
    texts <- mapM (fun run => get run "text") runs ;;
    Ok (join "" (map join_item texts))
  else Ok "".

(** [parseVideo], lines 120-154. *)
Definition parseVideo (data : value) : result YouTubeVideo :=
  if negb (truthy data) then Throw Failed_Video
  else
    renderer <- get data "videoRenderer" ;;
    if negb (truthy renderer) then Throw Failed_Video
    else
      owner <- get renderer "ownerText" ;;
      runs <- get owner "runs" ;;
      channel <- item runs (Num 0) ;;
      badge <- badge_of renderer ;;
      durationText <- get renderer "lengthText" ;;
      id <- get renderer "videoId" ;;
      title <- get renderer "title" ;;
      truns <- get title "runs" ;;
      trun <- item truns (Num 0) ;;
      title <- get trun "text" ;;
      description <- description_of renderer ;;
      duration <- (if truthy durationText
                   then simple <- get durationText "simpleText" ;; parseDuration simple
                   else Ok (Num 0)) ;;
      duration_raw <- (if truthy durationText then get durationText "simpleText"
                       else Ok VNull) ;;
      holder <- get renderer "thumbnail" ;;
      thumbnails <- get holder "thumbnails" ;;
      nav <- get channel "navigationEndpoint" ;;
      browse <- get nav "browseEndpoint" ;;
      browseId <- get browse "browseId" ;;
      cname <- get channel "text" ;;
      curl <- canonical_url channel ;;
      supported <- get renderer "channelThumbnailSupportedRenderers" ;;
      link <- get supported "channelThumbnailWithLinkRenderer" ;;
      iholder <- get link "thumbnail" ;;
      icons <- get iholder "thumbnails" ;;
      verified <- badge_has badge "verified" ;;
      artist <- badge_has badge "artist" ;;
      published <- get renderer "publishedTimeText" ;;
      uploaded <- optional published (fun published => get published "simpleText") ;;
      viewCount <- get renderer "viewCountText" ;;
      views <- optional viewCount (fun viewCount =>
                 simple <- get viewCount "simpleText" ;;
                 optional simple (fun simple =>
                   s <- as_string simple ;; Ok (VString (keep_digits s)))) ;;
      Ok {| video_id := id;
            video_url := "https://www.youtube.com/watch?v=" ++ to_string id;
            video_title := title;
            video_description := description;
            video_duration := duration;
            video_duration_raw := duration_raw;
            video_thumbnails := thumbnails;
            video_channel := {| owner_id := or_else browseId VNull;
                                owner_name := or_else cname VNull;
                                owner_url := curl;
                                owner_icons := icons;
                                owner_verified := verified;
                                owner_artist := artist |};
            video_uploadedAt := coalesce uploaded VNull;
            video_views := coalesce views (VNumber (Num 0));
            video_live := if truthy durationText then false else true |}.

(** [parsePlaylist], lines 160-188. *)
Definition parsePlaylist (data : value) : result YouTubePlayList :=
  if negb (truthy data) then Throw Failed_Playlist
  else
    renderer <- get data "playlistRenderer" ;;
    if negb (truthy renderer) then Throw Failed_Playlist
    else
      groups <- get renderer "thumbnails" ;;
      group <- item groups (Num 0) ;;
      thumbnails <- get group "thumbnails" ;;
      thumbnail <- last_of thumbnails ;;
      byline <- get renderer "shortBylineText" ;;
      runs <- get byline "runs" ;;
      channel <- optional runs (fun runs => item runs (Num 0)) ;;
      id <- get renderer "playlistId" ;;
      title <- get renderer "title" ;;
      title <- get title "simpleText" ;;
      turl <- get thumbnail "url" ;;
      height <- get thumbnail "height" ;;
      width <- get thumbnail "width" ;;
      cid <- optional channel (fun channel =>
               nav <- get channel "navigationEndpoint" ;;
               browse <- get nav "browseEndpoint" ;;
               get browse "browseId") ;;
      cname <- optional channel (fun channel => get channel "text") ;;
      curl <- optional channel (fun channel =>
                nav <- get channel "navigationEndpoint" ;;
                cmd <- get nav "commandMetadata" ;;
                web <- get cmd "webCommandMetadata" ;;
                get web "url") ;;
      count <- get renderer "videoCount" ;;
      count <- as_string count ;;
      Ok {| playlist_id := id;
            playlist_title := title;
            playlist_thumbnail := {| pthumb_id := id;
                                     pthumb_url := turl;
                                     pthumb_height := height;
                                     pthumb_width := width |};
            playlist_channel := {| pchannel_id := cid;
                                   pchannel_name := cname;
                                   pchannel_url := "https://www.youtube.com" ++ to_string curl |};
            playlist_videos := parseInt (keep_digits count) |}.

(** The pattern of line 32: a semicolon, white space, [var], [const] or
    [let], one white space. *)
Definition declaration : Regex.regex :=
  Regex.Seq (Regex.Chr ";")
    (Regex.Seq (Regex.Star Regex.Space)
       (Regex.Seq (Regex.Alt (Regex.Lit "var")
                     (Regex.Alt (Regex.Lit "const") (Regex.Lit "let")))
          Regex.Space)).

(** Lines 29-32: the text between the assignment prefix and the end of the
    script, cut at the next declaration; [None] is [undefined], when the
    prefix is not there. *)
Definition embedded_data (html : string) : option string :=
  match split "var ytInitialData = " html with
  | _ :: piece :: _ =>
      Some (Regex.before_first declaration (hd EmptyString (split ";</script>" piece)))
  | _ => None
  end.

(** Lines 25-26: the type asked for.  A type left out or empty is [video]. *)
Definition requested_type (options : option ParseSearchInterface) : string :=
  match options with
  | None => "video"
  | Some o =>
      match type o with
      | None => "video"
      | Some t => if String.eqb t "" then "video" else t
      end
  end.

Definition requested_limit (options : option ParseSearchInterface) : option number :=
  match options with
  | None => Some (Num 0)
  | Some o => limit o
  end.

(** Line 27. *)
Definition hasLimit (limit : option number) : bool :=
  match limit with
  | Some n => num_positive n
  | None => false
  end.

(** [results.length === options.limit] of line 39. *)
Definition limit_reached (results : list YouTube) (limit : option number) : bool :=
  match limit with
  | Some n => num_strict_eq (Num (Z.of_nat (List.length results))) n
  | None => false
  end.

(** The guard of line 40: the entry has none of the three renderers. *)
Definition no_renderer (detail : value) : result bool :=
  video <- get detail "videoRenderer" ;;
  if truthy video then Ok false
  else
    channel <- get detail "channelRenderer" ;;
    if truthy channel then Ok false
    else
      playlist <- get detail "playlistRenderer" ;;
      Ok (negb (truthy playlist)).

Definition Unknown_type (t : string) : error := Error ("Unknown search type: " ++ t).

(** The [switch] of lines 41-59.  What an extractor returns is an object,
    so [if (parsed)] always pushes. *)
Definition parse_detail (t : string) (detail : value) : result YouTube :=
  if String.eqb t "video" then v <- parseVideo detail ;; Ok (Video v)
  else if String.eqb t "channel" then c <- parseChannel detail ;; Ok (Channel c)
  else if String.eqb t "playlist" then p <- parsePlaylist detail ;; Ok (PlayList p true)
  else Throw (Unknown_type t).

(** The loop of lines 38-60 from the entries still to visit and the results
    pushed so far. *)
Fixpoint walk (t : string) (limit : option number) (details : list value)
  (results : list YouTube) : result (list YouTube) :=
  match details with
  | [] => Ok results
  | detail :: rest =>
      if hasLimit limit && limit_reached results limit then Ok results
      else
        skip <- no_renderer detail ;;
        if skip then walk t limit rest results
        else
          parsed <- parse_detail t detail ;;
          walk t limit rest (results ++ [parsed])
  end.

Definition No_data : error := Error "Can't parse Search result without data".

Section WithJSON.

(** [JSON.parse], of the runtime: [None] is its [SyntaxError]. *)
Variable JSON_parse : string -> option value.

(** Lines 24 and 29-37: the item list of the page. *)
Definition search_details (html : string) : result value :=
  if String.eqb html "" then Throw No_data
  else
    match embedded_data html with
    | None => Throw SyntaxError
    | Some data =>
        match JSON_parse data with
        | None => Throw SyntaxError
        | Some json_data =>
            contents <- get json_data "contents" ;;
            two <- get contents "twoColumnSearchResultsRenderer" ;;
            primary <- get two "primaryContents" ;;
            section <- get primary "sectionListRenderer" ;;
            sections <- get section "contents" ;;
            first <- item sections (Num 0) ;;
            items <- get first "itemSectionRenderer" ;;
            get items "contents"
        end
    end.

(** [ParseSearchResult], lines 23-62. *)
Definition ParseSearchResult (html : string) (options : option ParseSearchInterface)
  : result (list YouTube) :=
  details <- search_details html ;;
  details <- iterate details ;;
  walk (requested_type options) (requested_limit options) details [].

End WithJSON.

End Parser.

(** ** The SoundCloud module *)

Module SoundCloud.
Import JS.

(** [StreamType], of the YouTube stream module: the two members used. *)
Inductive StreamType : Type :=
| OggOpus
| Arbitrary.

(** The classes of [./classes] are built by their constructors from what
    this module hands them: an entity is identified with the constructor
    and its arguments. *)
Inductive SoundCloudTrack : Type :=
| NewTrack (json_data : value).

Inductive SoundCloudPlaylist : Type :=
| NewPlaylist (json_data : value) (client_id : value).

(** [SoundCloudTrack | SoundCloudPlaylist] *)
Inductive Entity : Type :=
| Track (t : SoundCloudTrack)
| Playlist (p : SoundCloudPlaylist).

Inductive Stream : Type :=
| NewStream (url : value) (type : StreamType).

(** What a call does besides returning: the requests it sends and the
    objects it constructs, in order. *)
Inductive event : Type :=
| Requested (url : string)
| Constructed (e : Entity)
| ConstructedStream (s : Stream).

(** An [async] function: from the events so far to its outcome (the value
    its promise resolves to, or the error it rejects with) and the events
    after it. *)
Definition async (A : Type) : Type := list event -> result A * list event.

Definition ret {A : Type} (a : A) : async A := fun log => (Ok a, log).

Definition throw {A : Type} (e : error) : async A := fun log => (Throw e, log).

Definition abind {A B : Type} (m : async A) (k : A -> async B) : async B :=
  fun log =>
    match m log with
    | (Ok a, log') => k a log'
    | (Throw e, log') => (Throw e, log')
    end.

(** A computation that touches nothing outside. *)
Definition pure {A : Type} (r : result A) : async A := fun log => (r, log).

Definition emit (ev : event) : async unit := fun log => (Ok tt, (log ++ [ev])%list).

Declare Scope async_scope.
Delimit Scope async_scope with async.
Notation "x <~ m ;; k" := (abind m (fun x => k))
  (at level 61, m at next level, right associativity) : async_scope.
Local Open Scope async_scope.

(** [a === s] for a string literal [s]. *)
Definition is_string (a : value) (s : string) : bool :=
  match a with
  | VString x => String.eqb x s
  | _ => false
  end.

(** [pattern], line 15. *)
Definition pattern : Regex.regex :=
  Regex.Seq (Regex.Opt (Regex.Seq (Regex.Seq (Regex.Lit "http") (Regex.Opt (Regex.Chr "s")))
                                  (Regex.Lit "://")))
    (Regex.Seq (Regex.Opt (Regex.Seq (Regex.Alt (Regex.Lit "www") (Regex.Lit "m"))
                                     (Regex.Chr ".")))
       (Regex.Seq (Regex.Alt (Regex.Lit "soundcloud.com") (Regex.Lit "snd.sc"))
          (Regex.Seq (Regex.Chr "/") (Regex.Star Regex.Dot)))).

Definition Missing_data : error :=
  Error ("SoundCloud Data is missing" ++ String "010" "Did you forgot to do authorization ?").
Definition Not_a_url : error := Error "This is not a SoundCloud URL".
Definition Out_of_scope : error := Error "This url is out of scope for play-dl.".
Definition Playlist_stream : error := Error "Streams can't be created from Playlist url".

Section WithCollaborators.

(** [soundData], lines 6-9: what the data file held, [undefined] when there
    was no file. *)
Variable soundData : value.

(** [request], of the YouTube utilities: the body of the response, or the
    error its promise rejects with. *)
Variable request : string -> result string.

(** [JSON.parse], of the runtime: [None] is its [SyntaxError]. *)
Variable JSON_parse : string -> option value.

(** The [formats] field of a [SoundCloudTrack], which its constructor sets. *)
Variable formats_of : SoundCloudTrack -> value.

Definition fetch (url : string) : async string :=
  _ <~ emit (Requested url) ;; pure (request url).

Definition parse (text : string) : async value :=
  match JSON_parse text with
  | Some v => ret v
  | None => throw SyntaxError
  end.

Definition construct (e : Entity) : async Entity :=
  _ <~ emit (Constructed e) ;; ret e.

Definition resolve_url (url : string) (client_id : value) : string :=
  "https://api-v2.soundcloud.com/resolve?url=" ++ url ++ "&client_id=" ++ to_string client_id.

(** [soundcloud], lines 17-34.  The [catch] of line 23 turns a rejection
    into a value and line 25 throws it again. *)
Definition soundcloud (url : string) : async Entity :=
  if negb (truthy soundData) then throw Missing_data
  else if negb (Regex.matches pattern url) then throw Not_a_url
  else
    client_id <~ pure (get soundData "client_id") ;;
    data <~ fetch (resolve_url url client_id) ;;
    json_data <~ parse data ;;
    kind <~ pure (get json_data "kind") ;;
    if negb (is_string kind "track") && negb (is_string kind "playlist")
    then throw Out_of_scope
    else if is_string kind "track" then construct (Track (NewTrack json_data))
    else
      client_id <~ pure (get soundData "client_id") ;;
      construct (Playlist (NewPlaylist json_data client_id)).

(** Lines 41-46 and 50-55: the stream of the last format of a track. *)
Definition stream_of_formats (formats : value) : async Stream :=
  len <~ pure (get formats "length") ;;
  last <~ pure (item formats (num_sub (to_number len) (Num 1))) ;;
  furl <~ pure (get last "url") ;;
  client_id <~ pure (get soundData "client_id") ;;
  body <~ fetch (to_string furl ++ "?client_id=" ++ to_string client_id) ;;
  s_data <~ parse body ;;
  len <~ pure (get formats "length") ;;
  last <~ pure (item formats (num_sub (to_number len) (Num 1))) ;;
  format <~ pure (get last "format") ;;
  mime <~ pure (get format "mime_type") ;;
  mime <~ pure (as_string mime) ;;
  surl <~ pure (get s_data "url") ;;
  let s := NewStream surl (if starts_with "audio/ogg" mime then OggOpus else Arbitrary) in
  _ <~ emit (ConstructedStream s) ;; ret s.

(** [stream], lines 36-47. *)
Definition stream (url : string) : async Stream :=
  data <~ soundcloud url ;;
  match data with
  | Playlist _ => throw Playlist_stream
  | Track t => stream_of_formats (formats_of t)
  end.

(** [stream_from_info], lines 49-56. *)
Definition stream_from_info (data : SoundCloudTrack) : async Stream :=
  stream_of_formats (formats_of data).

Definition search_url (id : string) : string :=
  "https://api-v2.soundcloud.com/search?client_id=" ++ id ++ "&q=Rick+Roll&limit=0".

(** [check_id], lines 58-66: the [catch] turns a rejection into a value,
    and the answer is whether that value is an error. *)
Definition check_id (id : string) : async bool :=
  fun log =>
    match fetch (search_url id) log with
    | (Ok _, log') => (Ok true, log')
    | (Throw _, log') => (Ok false, log')
    end.

(** What [so_validate] returns: [false], ['track'] or ['playlist']. *)
Inductive validation : Type :=
| Invalid
| IsTrack
| IsPlaylist.

(** [so_validate], lines 68-79. *)
Definition so_validate (url : string) : async validation :=
  client_id <~ pure (get soundData "client_id") ;;
  data <~ fetch (resolve_url url client_id) ;;
  json_data <~ parse data ;;
  kind <~ pure (get json_data "kind") ;;
  if is_string kind "track" then ret IsTrack
  else
    kind <~ pure (get json_data "kind") ;;
    if is_string kind "playlist" then ret IsPlaylist else ret Invalid.

End WithCollaborators.

End SoundCloud.

(** ** Sample data: a small search page *)

Module Samples.
Import JS Parser.

Definition str (s : string) : value := VString s.
Definition int (z : Z) : value := VNumber (Num z).
Definition simpleText (s : string) : value := VObject [("simpleText", str s)].

Definition thumb (url : string) (width height : Z) : value :=
  VObject [("url", str url); ("width", int width); ("height", int height)].

Definition small : value := thumb "//i.example/small.jpg" 88 88.
Definition large : value := thumb "//i.example/large.jpg" 176 176.

Definition endpoint (id base : string) : value :=
  VObject [("browseEndpoint",
            VObject [("browseId", str id); ("canonicalBaseUrl", str base)]);
           ("commandMetadata",
            VObject [("webCommandMetadata", VObject [("url", str base)])])].

Definition owner_run : value :=
  VObject [("text", str "Artist"); ("navigationEndpoint", endpoint "UC1" "/@artist")].

Definition verified_badge : value :=
  VArray [VObject [("metadataBadgeRenderer",
                    VObject [("style", str "BADGE_STYLE_TYPE_VERIFIED")])]].

(** The fields of a video card but its length. *)
Definition video_fields : list (string * value) :=
  [("videoId", str "dQw4");
   ("title", VObject [("runs", VArray [VObject [("text", str "A song")]])]);
   ("ownerText", VObject [("runs", VArray [owner_run])]);
   ("ownerBadges", verified_badge);
   ("thumbnail", VObject [("thumbnails", VArray [small; large])]);
   ("channelThumbnailSupportedRenderers",
    VObject [("channelThumbnailWithLinkRenderer",
              VObject [("thumbnail", VObject [("thumbnails", VArray [small])])])]);
   ("publishedTimeText", simpleText "3 years ago");
   ("viewCountText", simpleText "1,234,567 views")].

Definition video_entry : value :=
  VObject [("videoRenderer", VObject (("lengthText", simpleText "3:33") :: video_fields))].

Definition live_entry : value :=
  VObject [("videoRenderer", VObject video_fields)].

(** The video card whose length text is [text]. *)
Definition video_with_length (text : string) : value :=
  VObject [("videoRenderer", VObject (("lengthText", simpleText text) :: video_fields))].

Definition channel_entry : value :=
  VObject [("channelRenderer",
            VObject [("channelId", str "UC1");
                     ("title", simpleText "Artist");
                     ("navigationEndpoint", endpoint "UC1" "/@artist");
                     ("thumbnail", VObject [("thumbnails", VArray [small; large])]);
                     ("subscriberCountText", simpleText "2M subscribers")])].

Definition playlist_entry : value :=
  VObject [("playlistRenderer",
            VObject [("playlistId", str "PL1");
                     ("title", simpleText "Mix");
                     ("thumbnails", VArray [VObject [("thumbnails", VArray [small; large])]]);
                     ("shortBylineText", VObject [("runs", VArray [owner_run])]);
                     ("videoCount", str "12 videos")])].

(** A card of another kind: none of the three renderers. *)
Definition shelf_entry : value := VObject [("shelfRenderer", VObject [])].

(** The page around an item list. *)
Definition page (details : list value) : value :=
  VObject [("contents",
    VObject [("twoColumnSearchResultsRenderer",
      VObject [("primaryContents",
        VObject [("sectionListRenderer",
          VObject [("contents",
            VArray [VObject [("itemSectionRenderer",
              VObject [("contents", VArray details)])]])])])])])].

Definition html : string := "<script>var ytInitialData = {};</script>".

(** A [JSON.parse] that reads every text as the page around [details]. *)
Definition parse_as (details : list value) : string -> option value :=
  fun _ => Some (page details).

Definition options (t : string) (k : Z) : option ParseSearchInterface :=
  Some {| type := Some t; limit := Some (Num k); language := None |}.

End Samples.

(** ** The URL shape, as the specification words it *)

Module UrlShape.

(** A path: any characters on one line. *)
Fixpoint single_line (s : string) : bool :=
  match s with
  | EmptyString => true
  | String c s' => negb (JS.is_line_terminator c) && single_line s'
  end.

(** "Scheme-optional, optional www/m subdomain, host in (primary domain,
    short domain), arbitrary path". *)
Definition platform_url (url : string) : Prop :=
  exists scheme subdomain host path,
    url = scheme ++ subdomain ++ host ++ "/" ++ path /\
    (scheme = "" \/ scheme = "http://" \/ scheme = "https://") /\
    (subdomain = "" \/ subdomain = "www." \/ subdomain = "m.") /\
    (host = "soundcloud.com" \/ host = "snd.sc") /\
    single_line path = true.

End UrlShape.

(** ** The vocabulary of the statements about parser.ts *)

Module Words.
Import JS Parser.

(** [v?.k] as a value: the property, [undefined] where there is none to
    read. *)
Definition read (v : value) (k : string) : value :=
  match get v k with
  | Ok x => x
  | Throw _ => VUndefined
  end.

(** [v?.[0]] as a value. *)
Definition first_of (v : value) : value :=
  match item v (Num 0) with
  | Ok x => x
  | Throw _ => VUndefined
  end.

(** A decimal numeral: digits only, at least one. *)
Definition is_numeral (s : string) : bool :=
  all_in_radix 10 s && negb (String.eqb s "").

(** The number a decimal numeral denotes: the sum of its digits, each
    weighing ten times the next. *)
Fixpoint decimal (s : string) : Z :=
  match s with
  | EmptyString => 0
  | String c s' => (code c - 48) * 10 ^ Z.of_nat (String.length s') + decimal s'
  end.

Definition known_type (t : string) : Prop :=
  t = "video" \/ t = "channel" \/ t = "playlist".

(** The renderer an entry must carry to be of the type asked for. *)
Definition renderer_key (t : string) : string :=
  if String.eqb t "video" then "videoRenderer"
  else if String.eqb t "channel" then "channelRenderer"
  else "playlistRenderer".

(** The entry carries the renderer of type [t]. *)
Definition carries (t : string) (detail : value) : bool :=
  truthy (read detail (renderer_key t)).

(** The error of the extractor of type [t]. *)
Definition Failed (t : string) : error :=
  if String.eqb t "video" then Failed_Video
  else if String.eqb t "channel" then Failed_Channel
  else Failed_Playlist.

(** An entry the list walk steps over, and one it turns into a result. *)
Definition skipped (detail : value) : Prop := no_renderer detail = Ok true.

Definition extracted (t : string) (detail : value) : Prop :=
  exists parsed, parse_detail t detail = Ok parsed.

(** [collects t details found]: every entry of [details] is skipped or
    extracted, and [found] are the extracted ones, in order. *)
Inductive collects (t : string) : list value -> list YouTube -> Prop :=
| collects_nil : collects t [] []
| collects_skip detail details found :
    no_renderer detail = Ok true ->
    collects t details found ->
    collects t (detail :: details) found
| collects_push detail parsed details found :
    no_renderer detail = Ok false ->
    parse_detail t detail = Ok parsed ->
    collects t details found ->
    collects t (detail :: details) (parsed :: found).

End Words.

(** ** The vocabulary of the further statements

    Framing: where a separator begins in a text. *)

Module Framing.
Import JS Words.

(** No occurrence of [sep] begins inside [a] in the text [a ++ tail]. *)
Fixpoint no_start (sep a tail : string) : bool :=
  match a with
  | EmptyString => true
  | String c a' => negb (prefix sep (a ++ tail)) && no_start sep a' tail
  end.

(** [r] matches at no place of [s]. *)
Fixpoint unmatched (r : Regex.regex) (s : string) : bool :=
  match s with
  | EmptyString => true
  | String _ s' => negb (Regex.matches_prefix r s) && unmatched r s'
  end.

(** The place of the item list in the parsed page, lines 33-37:
    [contents.twoColumnSearchResultsRenderer.primaryContents
     .sectionListRenderer.contents[0].itemSectionRenderer.contents],
    [undefined] where a step has nothing to read. *)
Definition item_list (json_data : value) : value :=
  read (read (first_of
    (read (read (read (read (read json_data "contents")
                            "twoColumnSearchResultsRenderer")
                      "primaryContents")
                "sectionListRenderer")
          "contents"))
    "itemSectionRenderer") "contents".

End Framing.

(** Outcomes of the extractors and of the search. *)

Module Outcomes.
Import JS Parser Words.

(** The result is an entity of the type asked for; a playlist carries the
    flag the search builds it with. *)
Definition of_type (t : string) (y : YouTube) : Prop :=
  match y with
  | Video _ => t = "video"
  | Channel _ => t = "channel"
  | PlayList _ searched => t = "playlist" /\ searched = true
  end.

(** The errors a search can end with, for the type [t] asked for. *)
Definition search_error (t : string) (e : error) : Prop :=
  e = No_data \/ e = SyntaxError \/ e = TypeError \/
  (known_type t /\ e = Failed t) \/ (~ known_type t /\ e = Unknown_type t).

(** A computation that can only fail with the runtime's [TypeError]. *)
Definition only_TypeError {A : Type} (r : result A) : Prop :=
  forall e, r = Throw e -> e = TypeError.

End Outcomes.

(** The places of a card the extractors read. *)

Module Fields.
Import JS Parser Words.

(** [r.ownerBadges?.[0]?.metadataBadgeRenderer?.style] as a value. *)
Definition badge_style (renderer : value) : value :=
  read (read (first_of (read renderer "ownerBadges")) "metadataBadgeRenderer") "style".

(** [o.navigationEndpoint.browseEndpoint.canonicalBaseUrl] as a value. *)
Definition canonical_base (owner : value) : value :=
  read (read (read owner "navigationEndpoint") "browseEndpoint") "canonicalBaseUrl".

(** [o.navigationEndpoint.commandMetadata.webCommandMetadata.url] as a value. *)
Definition command_url (owner : value) : value :=
  read (read (read (read owner "navigationEndpoint") "commandMetadata")
          "webCommandMetadata") "url".

(** The first run of the owner text of a video card, and of the byline of a
    playlist card. *)
Definition video_owner (data : value) : value :=
  first_of (read (read (read data "videoRenderer") "ownerText") "runs").

Definition playlist_owner (data : value) : value :=
  first_of (read (read (read data "playlistRenderer") "shortBylineText") "runs").

Definition origin : string := "https://www.youtube.com".

End Fields.

(** More sample cards. *)

Module MoreSamples.
Import JS Parser Samples.

(** A channel card with no badge, no subscriber count and no canonical base
    URL. *)
Definition plain_channel_entry : value :=
  VObject [("channelRenderer",
            VObject [("channelId", str "UC3");
                     ("title", simpleText "Plain");
                     ("navigationEndpoint",
                      VObject [("browseEndpoint", VObject [("browseId", str "UC3")]);
                               ("commandMetadata",
                                VObject [("webCommandMetadata",
                                          VObject [("url", str "/channel/UC3")])])]);
                     ("thumbnail", VObject [("thumbnails", VArray [small])])])].

(** A playlist card whose byline has no runs and whose count has no digit. *)
Definition anonymous_playlist_entry : value :=
  VObject [("playlistRenderer",
            VObject [("playlistId", str "PL2");
                     ("title", simpleText "Untitled");
                     ("thumbnails", VArray [VObject [("thumbnails", VArray [small])]]);
                     ("shortBylineText", VObject []);
                     ("videoCount", str "No videos")])].


(** A page that holds more than the item list: keys before and after each
    step of the way to it, and a second section. *)
Definition full_page (details : list value) : value :=
  VObject
    [("responseContext", VObject []);
     ("estimatedResults", str "1");
     ("contents",
      VObject
        [("twoColumnSearchResultsRenderer",
          VObject
            [("primaryContents",
              VObject
                [("sectionListRenderer",
                  VObject
                    [("contents",
                      VArray [VObject [("itemSectionRenderer",
                                        VObject [("contents", VArray details);
                                                 ("trackingParams", str "a")])];
                              VObject [("continuationItemRenderer", VObject [])]]);
                     ("targetId", str "search-feed")])]);
             ("secondaryContents", VObject [])])]);
     ("trackingParams", str "b")].

(** A [JSON.parse] that reads the text [text] as [json_data] and refuses
    every other text. *)
Definition parse_one (text : string) (json_data : value) : string -> option value :=
  fun s => if String.eqb s text then Some json_data else None.

End MoreSamples.

(** * Properties *)

(** ** Regular expressions: the matcher decides the language *)

Module RegexFacts.
Import Regex.

Lemma append_nil_inv (s1 s2 : string) :
  s1 ++ s2 = EmptyString -> s1 = EmptyString /\ s2 = EmptyString.
Proof.
  destruct s1; simpl; intros H; [auto | discriminate].
Qed.

Lemma append_cons_inv (s1 s2 s : string) (c : ascii) :
  s1 ++ s2 = String c s ->
  (s1 = EmptyString /\ s2 = String c s) \/
  (exists s1', s1 = String c s1' /\ s = s1' ++ s2).
Proof.
  destruct s1 as [|a s1']; simpl; intros H.
  - left; auto.
  - right. injection H as -> <-. eauto.
Qed.

Lemma append_nil_r (s : string) : s ++ EmptyString = s.
Proof.
  induction s; simpl; congruence.
Qed.

Lemma append_assoc (s1 s2 s3 : string) : (s1 ++ s2) ++ s3 = s1 ++ (s2 ++ s3).
Proof.
  induction s1; simpl; congruence.
Qed.

Lemma nullable_lang (r : regex) : nullable r = true <-> lang r EmptyString.
Proof.
  split.
  - induction r; simpl; intros H; try discriminate.
    + constructor.
    + apply andb_true_iff in H as [H1 H2].
      change EmptyString with (EmptyString ++ EmptyString). constructor; auto.
    + apply orb_true_iff in H as [H | H]; [apply lang_alt_l | apply lang_alt_r]; auto.
    + constructor.
  - intros H. remember EmptyString as s eqn:Es.
    induction H; simpl; try reflexivity; try discriminate.
    + apply append_nil_inv in Es as [-> ->]. rewrite IHlang1, IHlang2; auto.
    + rewrite IHlang; auto.
    + rewrite IHlang; auto using orb_true_r.
Qed.

Lemma deriv_sound (c : ascii) (r : regex) :
  forall s, lang (deriv c r) s -> lang r (String c s).
Proof.
  induction r; simpl; intros s H.
  - inversion H.
  - inversion H.
  - destruct (p c) eqn:Ep; inversion H; subst. constructor; exact Ep.
  - destruct (nullable r1) eqn:En.
    + inversion H; subst.
      * match goal with
        | [ Hs : lang (Seq _ _) _ |- _ ] => inversion Hs; subst
        end.
        change (String c (?a ++ ?b)) with (String c a ++ b).
        constructor; auto.
      * change (String c s) with (EmptyString ++ String c s).
        constructor; [apply nullable_lang; exact En | auto].
    + inversion H; subst.
      change (String c (?a ++ ?b)) with (String c a ++ b).
      constructor; auto.
  - inversion H; subst; [apply lang_alt_l | apply lang_alt_r]; auto.
  - inversion H; subst.
    change (String c (?a ++ ?b)) with (String c a ++ b).
    constructor; auto.
Qed.

Lemma deriv_complete (c : ascii) (r : regex) (s : string) :
  lang r (String c s) -> lang (deriv c r) s.
Proof.
  intros H. remember (String c s) as w eqn:Ew. revert s Ew.
  induction H; intros t Ew; simpl; try discriminate.
  - injection Ew as -> <-. rewrite H. constructor.
  - apply append_cons_inv in Ew as [[-> ->] | (s1' & -> & ->)].
    + assert (En : nullable r1 = true) by (apply nullable_lang; exact H).
      rewrite En. apply lang_alt_r. apply IHlang2; reflexivity.
    + destruct (nullable r1).
      * apply lang_alt_l. constructor; [apply IHlang1; reflexivity | exact H0].
      * constructor; [apply IHlang1; reflexivity | exact H0].
  - apply lang_alt_l. apply IHlang; exact Ew.
  - apply lang_alt_r. apply IHlang; exact Ew.
  - apply append_cons_inv in Ew as [[-> ->] | (s1' & -> & ->)].
    + apply IHlang2; reflexivity.
    + constructor; [apply IHlang1; reflexivity | exact H0].
Qed.

Lemma matches_lang (s : string) :
  forall r, matches r s = true <-> lang r s.
Proof.
  induction s as [|c s IH]; intros r; simpl.
  - apply nullable_lang.
  - rewrite IH. split; [apply deriv_sound | apply deriv_complete].
Qed.

Lemma lang_Lit (lit s : string) : lang (Lit lit) s <-> s = lit.
Proof.
  revert s. induction lit as [|c lit IH]; intros s; simpl; split; intros H.
  - inversion H; reflexivity.
  - subst. constructor.
  - inversion H; subst.
    match goal with
    | [ Hc : lang (Chr _) _ |- _ ] => inversion Hc; subst
    end.
    match goal with
    | [ Hp : Ascii.eqb _ _ = true |- _ ] => apply Ascii.eqb_eq in Hp; subst
    end.
    simpl. f_equal. apply IH. assumption.
  - subst. change (String c lit) with (String c EmptyString ++ lit).
    constructor; [constructor; apply Ascii.eqb_refl | apply IH; reflexivity].
Qed.

Lemma lang_Chr (c : ascii) (s : string) : lang (Chr c) s <-> s = String c EmptyString.
Proof.
  split; intros H.
  - inversion H; subst.
    match goal with
    | [ Hp : Ascii.eqb _ _ = true |- _ ] => apply Ascii.eqb_eq in Hp; subst
    end.
    reflexivity.
  - subst. constructor. apply Ascii.eqb_refl.
Qed.

Lemma lang_Opt (r : regex) (s : string) : lang (Opt r) s <-> lang r s \/ s = EmptyString.
Proof.
  split; intros H.
  - inversion H; subst; auto.
    match goal with
    | [ He : lang Eps _ |- _ ] => inversion He; auto
    end.
  - destruct H as [H | ->]; [apply lang_alt_l; exact H | apply lang_alt_r; constructor].
Qed.

Lemma lang_Alt (r1 r2 : regex) (s : string) : lang (Alt r1 r2) s <-> lang r1 s \/ lang r2 s.
Proof.
  split; intros H.
  - inversion H; subst; auto.
  - destruct H; [apply lang_alt_l | apply lang_alt_r]; assumption.
Qed.

Lemma lang_Seq (r1 r2 : regex) (s : string) :
  lang (Seq r1 r2) s <-> exists s1 s2, s = s1 ++ s2 /\ lang r1 s1 /\ lang r2 s2.
Proof.
  split; intros H.
  - inversion H; subst; eauto.
  - destruct H as (s1 & s2 & -> & H1 & H2). constructor; assumption.
Qed.

Lemma lang_Star_Dot (s : string) : lang (Star Dot) s <-> UrlShape.single_line s = true.
Proof.
  split; intros H.
  - remember (Star Dot) as r eqn:Er.
    induction H; try discriminate; injection Er as ->.
    + reflexivity.
    + inversion H; subst. simpl.
      match goal with
      | [ Hp : negb _ = true |- _ ] => rewrite Hp
      end.
      simpl. apply IHlang2. reflexivity.
  - induction s as [|c s IH]; simpl in H.
    + constructor.
    + apply andb_true_iff in H as [Hc Hs].
      change (String c s) with (String c EmptyString ++ s).
      constructor; [constructor; exact Hc | apply IH; exact Hs].
Qed.

End RegexFacts.

(** ** The SoundCloud module *)

Module SoundCloudFacts.
Import JS Regex RegexFacts SoundCloud UrlShape.

Lemma scheme_lang (s : string) :
  lang (Opt (Seq (Seq (Lit "http") (Opt (Chr "s"))) (Lit "://"))) s <->
  s = "" \/ s = "http://" \/ s = "https://".
Proof.
  split.
  - intros H. apply lang_Opt in H as [H | ->]; [| auto].
    apply lang_Seq in H as (a & z & -> & Ha & Hz).
    apply lang_Seq in Ha as (x & y & -> & Hx & Hy).
    apply lang_Lit in Hx, Hz. subst.
    apply lang_Opt in Hy as [Hy | ->].
    + apply lang_Chr in Hy. subst. auto.
    + auto.
  - intros [-> | [-> | ->]]; apply matches_lang; reflexivity.
Qed.

Lemma subdomain_lang (s : string) :
  lang (Opt (Seq (Alt (Lit "www") (Lit "m")) (Chr "."))) s <->
  s = "" \/ s = "www." \/ s = "m.".
Proof.
  split.
  - intros H. apply lang_Opt in H as [H | ->]; [| auto].
    apply lang_Seq in H as (a & z & -> & Ha & Hz).
    apply lang_Chr in Hz. subst.
    apply lang_Alt in Ha as [Ha | Ha]; apply lang_Lit in Ha; subst; auto.
  - intros [-> | [-> | ->]]; apply matches_lang; reflexivity.
Qed.

Lemma host_lang (s : string) :
  lang (Alt (Lit "soundcloud.com") (Lit "snd.sc")) s <->
  s = "soundcloud.com" \/ s = "snd.sc".
Proof.
  rewrite lang_Alt, !lang_Lit. reflexivity.
Qed.

(** The pattern of line 15 matches the URLs of the platform's shape and
    nothing else. *)
Lemma pattern_shape (url : string) :
  matches pattern url = true <-> platform_url url.
Proof.
  rewrite matches_lang. unfold pattern, platform_url. split.
  - intros H.
    apply lang_Seq in H as (scheme & r1 & -> & Hscheme & H).
    apply lang_Seq in H as (sub & r2 & -> & Hsub & H).
    apply lang_Seq in H as (host & r3 & -> & Hhost & H).
    apply lang_Seq in H as (slash & path & -> & Hslash & Hpath).
    apply lang_Chr in Hslash. subst slash.
    exists scheme, sub, host, path.
    repeat split.
    + apply scheme_lang; exact Hscheme.
    + apply subdomain_lang; exact Hsub.
    + apply host_lang; exact Hhost.
    + apply lang_Star_Dot; exact Hpath.
  - intros (scheme & sub & host & path & -> & Hscheme & Hsub & Hhost & Hpath).
    apply lang_seq; [apply scheme_lang; exact Hscheme |].
    apply lang_seq; [apply subdomain_lang; exact Hsub |].
    apply lang_seq; [apply host_lang; exact Hhost |].
    apply lang_seq; [apply lang_Chr; reflexivity | apply lang_Star_Dot; exact Hpath].
Qed.

(** C7.  The pattern the resolver validates a URL with accepts exactly the
    platform's URL shape: an optional [http://] or [https://], an optional
    [www.] or [m.], the host [soundcloud.com] or [snd.sc], a slash and a
    path (any characters on one line).  The four URLs of the specification
    match, [https://example.com] does not, and with a credential loaded the
    resolver rejects a URL that does not match with the error "This is not
    a SoundCloud URL" before any request. *)
Theorem url_validation :
  (forall url, matches pattern url = true <-> platform_url url) /\
  matches pattern "https://soundcloud.com/x/y" = true /\
  matches pattern "soundcloud.com/x" = true /\
  matches pattern "http://m.soundcloud.com/x" = true /\
  matches pattern "snd.sc/abc" = true /\
  matches pattern "https://example.com" = false /\
  (forall soundData request JSON_parse url log,
     truthy soundData = true ->
     matches pattern url = false ->
     soundcloud soundData request JSON_parse url log = (Throw Not_a_url, log)).
Proof.
  split; [exact pattern_shape |].
  repeat (split; [reflexivity |]).
  intros soundData request JSON_parse url log Hdata Hurl.
  unfold soundcloud. rewrite Hdata, Hurl. reflexivity.
Qed.

(** The resolver with the credential [abc] rejects [https://example.com]. *)
Lemma url_validation_witness :
  soundcloud (VObject [("client_id", VString "abc")]) (fun _ => Ok "{}")
    (fun _ => Some (VObject [])) "https://example.com" [] = (Throw Not_a_url, []).
Proof.
  apply (proj2 (proj2 (proj2 (proj2 (proj2 (proj2 url_validation)))))); reflexivity.
Defined.

Lemma is_string_true (a : value) (s : string) :
  is_string a s = true <-> a = VString s.
Proof.
  destruct a; simpl; split; intros H; try discriminate.
  - apply String.eqb_eq in H. congruence.
  - injection H as ->. apply String.eqb_refl.
Qed.

Lemma is_string_false (a : value) (s : string) :
  a <> VString s -> is_string a s = false.
Proof.
  intros H. destruct (is_string a s) eqn:E; [| reflexivity].
  apply is_string_true in E. contradiction.
Qed.

(** C6.  Once the credential is loaded, the URL matches and the resolve
    request is answered with a text that [JSON.parse] reads as a value with
    a [kind], the resolver discriminates on it: [track] yields a
    [SoundCloudTrack] built from the response, [playlist] a
    [SoundCloudPlaylist] built from the response and the client id, and any
    other kind raises "This url is out of scope for play-dl." with nothing
    constructed: the request is the only event of the call. *)
Theorem resolve_discriminates :
  forall soundData request JSON_parse url log client_id body json_data kind,
    truthy soundData = true ->
    matches pattern url = true ->
    get soundData "client_id" = Ok client_id ->
    request (resolve_url url client_id) = Ok body ->
    JSON_parse body = Some json_data ->
    get json_data "kind" = Ok kind ->
    (kind = VString "track" ->
     soundcloud soundData request JSON_parse url log =
       (Ok (Track (NewTrack json_data)),
        log ++ [Requested (resolve_url url client_id);
                Constructed (Track (NewTrack json_data))])%list) /\
    (kind = VString "playlist" ->
     soundcloud soundData request JSON_parse url log =
       (Ok (Playlist (NewPlaylist json_data client_id)),
        log ++ [Requested (resolve_url url client_id);
                Constructed (Playlist (NewPlaylist json_data client_id))])%list) /\
    (kind <> VString "track" -> kind <> VString "playlist" ->
     soundcloud soundData request JSON_parse url log =
       (Throw Out_of_scope, log ++ [Requested (resolve_url url client_id)])%list).
Proof.
  intros soundData request JSON_parse url log client_id body json_data kind
    Hdata Hurl Hid Hreq Hparse Hkind.
  unfold soundcloud, fetch, parse, construct, abind, pure, emit, ret, throw.
  rewrite Hdata, Hurl, Hid, Hreq, Hparse, Hkind. simpl.
  repeat split.
  - intros ->. simpl. rewrite <- app_assoc. reflexivity.
  - intros ->. simpl. rewrite <- app_assoc. reflexivity.
  - intros Ht Hp. rewrite (is_string_false _ _ Ht), (is_string_false _ _ Hp).
    reflexivity.
Qed.

(** A [user] response is out of scope and constructs nothing. *)
Lemma resolve_discriminates_witness :
  soundcloud (VObject [("client_id", VString "abc")]) (fun _ => Ok "user")
    (fun _ => Some (VObject [("kind", VString "user")])) "snd.sc/abc" [] =
  (Throw Out_of_scope,
   [Requested "https://api-v2.soundcloud.com/resolve?url=snd.sc/abc&client_id=abc"]).
Proof.
  apply (proj2 (proj2 (resolve_discriminates
           (VObject [("client_id", VString "abc")]) (fun _ => Ok "user")
           (fun _ => Some (VObject [("kind", VString "user")])) "snd.sc/abc" []
           (VString "abc") "user" (VObject [("kind", VString "user")]) (VString "user")
           eq_refl eq_refl eq_refl eq_refl eq_refl eq_refl)));
    discriminate.
Defined.

(** C8.  The credential probe sends one search request and never throws:
    it answers [false] when the request fails, with whatever error, and
    [true] when it succeeds, for every id. *)
Theorem check_id_total :
  forall request id log,
    (forall e, request (search_url id) = Throw e ->
       check_id request id log = (Ok false, log ++ [Requested (search_url id)])%list) /\
    (forall body, request (search_url id) = Ok body ->
       check_id request id log = (Ok true, log ++ [Requested (search_url id)])%list) /\
    (exists answer, fst (check_id request id log) = Ok answer).
Proof.
  intros request id log.
  unfold check_id, fetch, abind, pure, emit. simpl.
  repeat split.
  - intros e ->. reflexivity.
  - intros body ->. reflexivity.
  - destruct (request (search_url id)); simpl; eauto.
Qed.

(** A revoked id: the request fails and the probe answers [false]. *)
Lemma check_id_total_witness :
  check_id (fun _ => Throw (Error "401")) "revoked" [] =
  (Ok false, [Requested (search_url "revoked")]).
Proof.
  apply (proj1 (check_id_total (fun _ => Throw (Error "401")) "revoked" [])
           (Error "401")).
  reflexivity.
Defined.

Lemma get_throws (v : value) (k : string) (e : error) :
  get v k = Throw e -> e = TypeError.
Proof.
  destruct v; simpl; intros H; try discriminate; congruence.
Qed.

Lemma item_throws (v : value) (i : number) (e : error) :
  item v i = Throw e -> e = TypeError.
Proof.
  destruct v; simpl; intros H; try discriminate; congruence.
Qed.

(** Without a credential the stream of a track fails at the latest where
    line 41 or line 50 reads [soundData.client_id], before any request. *)
Lemma stream_of_formats_without_credential request JSON_parse formats log :
  stream_of_formats VUndefined request JSON_parse formats log = (Throw TypeError, log).
Proof.
  unfold stream_of_formats, abind, pure.
  destruct (get formats "length") as [len | e] eqn:Elen.
  - destruct (item formats (num_sub (to_number len) (Num 1))) as [last | e] eqn:Elast.
    + destruct (get last "url") as [furl | e] eqn:Eurl.
      * reflexivity.
      * apply get_throws in Eurl. subst. reflexivity.
    + apply item_throws in Elast. subst. reflexivity.
  - apply get_throws in Elen. subst. reflexivity.
Qed.

(** C10.  With no credential loaded ([soundData] is [undefined]),
    [stream_from_info] and [so_validate] fail with the runtime's
    [TypeError], for every track and every URL and before any request is
    sent, where [soundcloud] fails with its own "SoundCloud Data is
    missing" error. *)
Theorem unguarded_credential :
  forall request JSON_parse formats_of data url log,
    stream_from_info VUndefined request JSON_parse formats_of data log =
      (Throw TypeError, log) /\
    so_validate VUndefined request JSON_parse url log = (Throw TypeError, log) /\
    soundcloud VUndefined request JSON_parse url log = (Throw Missing_data, log).
Proof.
  intros request JSON_parse formats_of data url log.
  repeat split.
  apply stream_of_formats_without_credential.
Qed.

(** With the credential [abc], the stream of a track with one Opus format:
    one request to the format's URL with the client id, then the stream. *)
Example stream_from_info_run :
  stream_from_info (VObject [("client_id", VString "abc")])
    (fun _ => Ok "signed") (fun _ => Some (VObject [("url", VString "https://cdn/x")]))
    (fun _ => VArray [VObject [("url", VString "https://api/t/1");
                               ("format", VObject [("mime_type", VString "audio/ogg; codecs=opus")])]])
    (NewTrack VNull) [] =
  (Ok (NewStream (VString "https://cdn/x") OggOpus),
   [Requested "https://api/t/1?client_id=abc";
    ConstructedStream (NewStream (VString "https://cdn/x") OggOpus)]).
Proof. reflexivity. Qed.

(** The kind probe of a track URL, with the credential [abc]. *)
Example so_validate_run :
  so_validate (VObject [("client_id", VString "abc")]) (fun _ => Ok "track")
    (fun _ => Some (VObject [("kind", VString "track")])) "snd.sc/abc" [] =
  (Ok IsTrack, [Requested "https://api-v2.soundcloud.com/resolve?url=snd.sc/abc&client_id=abc"]).
Proof. reflexivity. Qed.

End SoundCloudFacts.

(** ** The fragment of JavaScript *)

Module JSFacts.
Import JS.
Local Open Scope js_scope.

Lemma bind_ok {A B : Type} (m : result A) (k : A -> result B) (b : B) :
  bind m k = Ok b -> exists a, m = Ok a /\ k a = Ok b.
Proof.
  destruct m as [a | e]; simpl; intros H; [eauto | discriminate].
Qed.

(** Takes a chain of binds that ends well apart, step by step. *)
Ltac invert_ok H :=
  repeat (cbv beta in H;
    match type of H with
    | bind ?m _ = Ok _ =>
        let a := fresh "x" in
        let E := fresh "E" in
        apply bind_ok in H as (a & E & H)
    | (if ?c then _ else _) = Ok _ =>
        let C := fresh "C" in
        destruct c eqn:C; try discriminate H
    end).

Lemma get_read (v x : value) (k : string) : get v k = Ok x -> Words.read v k = x.
Proof.
  unfold Words.read. intros ->. reflexivity.
Qed.

Lemma item_first (v x : value) : item v (Num 0) = Ok x -> Words.first_of v = x.
Proof.
  unfold Words.first_of. intros ->. reflexivity.
Qed.

Lemma string_of_list_ascii_app (l1 l2 : list ascii) :
  string_of_list_ascii (l1 ++ l2) = string_of_list_ascii l1 ++ string_of_list_ascii l2.
Proof.
  induction l1; simpl; congruence.
Qed.

Lemma rev_string_cons (c : ascii) (s : string) :
  rev_string (String c s) = rev_string s ++ String c EmptyString.
Proof.
  unfold rev_string. simpl. apply string_of_list_ascii_app.
Qed.

Lemma digit_code (c : ascii) (d : Z) :
  digit_val 10 c = Some d -> 48 <= code c <= 57 /\ d = code c - 48.
Proof.
  unfold digit_val. intros H.
  destruct ((48 <=? code c) && (code c <=? 57)) eqn:E1.
  - apply andb_true_iff in E1 as [H1 H2].
    destruct (code c - 48 <? 10); [| discriminate]. injection H as <-. lia.
  - exfalso.
    destruct ((97 <=? code c) && (code c <=? 122)) eqn:E2.
    + apply andb_true_iff in E2 as [H1 H2].
      destruct (code c - 87 <? 10) eqn:E3; [| discriminate]. lia.
    + destruct ((65 <=? code c) && (code c <=? 90)) eqn:E3.
      * apply andb_true_iff in E3 as [H1 H2].
        destruct (code c - 55 <? 10) eqn:E4; [| discriminate]. lia.
      * rewrite Z.ltb_irrefl in H. discriminate.
Qed.

Lemma digit_not_colon (c : ascii) (d : Z) : digit_val 10 c = Some d -> c <> ":"%char.
Proof.
  intros H ->. apply digit_code in H as [H _]. unfold code in H. simpl in H. lia.
Qed.

Lemma digit_not_space (c : ascii) (d : Z) : digit_val 10 c = Some d -> is_space c = false.
Proof.
  intros H. apply digit_code in H as [H _]. unfold is_space.
  destruct (9 <=? code c) eqn:E1, (code c <=? 13) eqn:E2,
           (code c =? 32) eqn:E3, (code c =? 160) eqn:E4; simpl; try reflexivity; lia.
Qed.

(** An integer of at most 53 bits is a double. *)
Lemma to_double_exact (z : Z) : Z.abs z <= 2 ^ 53 -> to_double z = Num z.
Proof.
  intros H. unfold to_double. cbv zeta. apply Z.leb_le in H. rewrite H. reflexivity.
Qed.

(** Rounding gives a number of at most 53 significant bits, within half a
    unit of its last place of the integer. *)
Lemma to_double_nearest (z d : Z) :
  to_double z = Num d ->
  exists e q,
    0 <= e /\ d = q * 2 ^ e /\ Z.abs q <= 2 ^ 53 /\ 2 * Z.abs (d - z) <= 2 ^ e.
Proof.
  unfold to_double. cbv zeta.
  destruct (Z.abs z <=? 2 ^ 53) eqn:E.
  - intros H. injection H as <-. apply Z.leb_le in E.
    exists 0, z. rewrite Z.pow_0_r. repeat split; lia.
  - apply Z.leb_gt in E.
    set (a := Z.abs z) in *. set (L := Z.log2 a).
    assert (Ha : 0 < a) by lia.
    assert (HL : 53 <= L).
    { unfold L. rewrite <- (Z.log2_pow2 53) by lia. apply Z.log2_le_mono. lia. }
    destruct (Z.log2_spec a Ha) as [Hlow Hhigh]. fold L in Hlow, Hhigh.
    set (u := 2 ^ (L - 52)).
    assert (Hu : 0 < u) by (apply Z.pow_pos_nonneg; lia).
    assert (Hsplit : 2 ^ Z.succ L = 2 ^ 53 * u).
    { unfold u. rewrite <- Z.pow_add_r by lia. f_equal. lia. }
    pose proof (Z.div_mod a u ltac:(lia)) as Hdiv.
    pose proof (Z.mod_pos_bound a u Hu) as Hr.
    set (q := a / u) in *. set (r := a mod u) in *.
    assert (Hq : q < 2 ^ 53).
    { apply Z.div_lt_upper_bound; [exact Hu |]. rewrite Z.mul_comm. lia. }
    assert (Hq0 : 0 <= q) by (apply Z.div_pos; lia).
    set (q' := if 2 * r <? u then q
               else if u <? 2 * r then q + 1 else if Z.even q then q else q + 1).
    assert (Hq' : (q' = q /\ 2 * r <= u) \/ (q' = q + 1 /\ u <= 2 * r)).
    { unfold q'. destruct (2 * r <? u) eqn:E1; [apply Z.ltb_lt in E1; left; lia |].
      apply Z.ltb_ge in E1.
      destruct (u <? 2 * r) eqn:E2; [apply Z.ltb_lt in E2; right; lia |].
      apply Z.ltb_ge in E2. destruct (Z.even q); [left | right]; lia. }
    destruct (2 ^ 1024 <=? q' * u); [discriminate |].
    intros H. injection H as <-.
    exists (L - 52), (Z.sgn z * q'). fold u.
    split; [lia |]. split; [ring |].
    assert (Hz : z = Z.sgn z * a) by (unfold a; rewrite Z.mul_comm; symmetry; apply Z.abs_sgn).
    assert (Hs : Z.abs (Z.sgn z) = 1) by (unfold a in Ha; lia).
    split.
    + rewrite Z.abs_mul, Hs. lia.
    + replace (Z.sgn z * (q' * u) - z) with (Z.sgn z * (q' * u - a)) by (rewrite Hz at 3; ring).
      rewrite Z.abs_mul, Hs. nia.
Qed.

(** Reading digits from the left computes the sum of the weighted digits. *)
Lemma parse_digits_decimal (s : string) :
  forall acc,
    all_in_radix 10 s = true ->
    parse_digits 10 acc s = acc * 10 ^ Z.of_nat (String.length s) + Words.decimal s.
Proof.
  induction s as [|c s IH]; intros acc H.
  - cbn [parse_digits Words.decimal String.length Z.of_nat]. rewrite Z.pow_0_r. lia.
  - cbn [all_in_radix] in H. destruct (digit_val 10 c) as [d |] eqn:Ed; [| discriminate].
    cbn [parse_digits Words.decimal String.length]. rewrite Ed, (IH _ H).
    apply digit_code in Ed as [_ ->].
    rewrite Nat2Z.inj_succ, Z.pow_succ_r by lia. ring.
Qed.

Lemma decimal_nonnegative (s : string) : all_in_radix 10 s = true -> 0 <= Words.decimal s.
Proof.
  induction s as [|c s IH]; intros H; [cbn; lia |].
  cbn [all_in_radix] in H. destruct (digit_val 10 c) as [d |] eqn:Ed; [| discriminate].
  apply digit_code in Ed as [Hc _]. cbn [Words.decimal].
  specialize (IH H). assert (0 < 10 ^ Z.of_nat (String.length s)) by (apply Z.pow_pos_nonneg; lia).
  nia.
Qed.

(** The string functions on the texts the sources meet. *)
Example split_duration : split ":" "1:02:03" = ["1"; "02"; "03"].
Proof. reflexivity. Qed.

Example split_marker :
  split "</b>" "one</b>two</b>" = ["one"; "two"; ""].
Proof. reflexivity. Qed.

Example parseInt_prefix : parseInt "  12 videos" = Num 12.
Proof. reflexivity. Qed.

Example parseInt_hexadecimal : parseInt "0x1A" = Num 26.
Proof. reflexivity. Qed.

Example parseInt_nothing : parseInt "views" = NaN.
Proof. reflexivity. Qed.

(** Beyond 53 bits the numbers are rounded, and printed with the digits
    that tell them from their neighbours. *)
Example parseInt_rounds_to_even : parseInt "9007199254740993" = Num 9007199254740992.
Proof. reflexivity. Qed.

Example parseInt_twenty_digits :
  parseInt "12345678901234567890" = Num 12345678901234567168.
Proof. reflexivity. Qed.

Example to_string_twenty_digits :
  to_string (VNumber (parseInt "12345678901234567890")) = "12345678901234567000".
Proof. reflexivity. Qed.

Example to_string_exponent :
  to_string (VNumber (parseInt "1234000000000000000000")) = "1.234e+21".
Proof. reflexivity. Qed.

Example num_mul_rounds :
  num_mul (Num 9007199254740991) (Num 3) = Num 27021597764222972.
Proof. reflexivity. Qed.

Example to_double_overflow :
  to_double (2 ^ 1024 - 2 ^ 970 - 1) = Num (2 ^ 1024 - 2 ^ 971) /\
  to_double (2 ^ 1024 - 2 ^ 970) = Infinity false.
Proof. split; vm_compute; reflexivity. Qed.

Example replace_first_once :
  replace_first "//" "https://" "//yt3.example/a//b" = "https://yt3.example/a//b".
Proof. reflexivity. Qed.

Example to_string_array :
  to_string (VArray [VNumber (Num 15); VNull; VString "a"]) = "15,,a".
Proof. reflexivity. Qed.

Example embedded_data_cut :
  Parser.embedded_data "<script>var ytInitialData = {};  var meta = 1;</script>"
  = Some "{}".
Proof. reflexivity. Qed.

Example embedded_data_absent : Parser.embedded_data "<html></html>" = None.
Proof. reflexivity. Qed.

End JSFacts.

(** ** parser.ts *)

Module ParserFacts.
Import JS Parser Words JSFacts.
Local Open Scope js_scope.

(** *** Durations *)

Lemma prefix_nil (s : string) : prefix EmptyString s = true.
Proof.
  destruct s; reflexivity.
Qed.

Lemma prefix_colon (c : ascii) (s : string) :
  c <> ":"%char -> prefix ":" (String c s) = false.
Proof.
  intros H. cbn [prefix]. destruct (ascii_dec ":" c) as [E | E]; [congruence | reflexivity].
Qed.

Lemma split_numeral_piece (h : string) :
  forall cur rest,
    all_in_radix 10 h = true ->
    split_aux ":" O cur (h ++ String ":" rest) =
    (rev_string cur ++ h) :: split_aux ":" O EmptyString rest.
Proof.
  induction h as [|c h IH]; intros cur rest Hh.
  - cbn [append split_aux]. rewrite RegexFacts.append_nil_r.
    cbn [prefix]. destruct (ascii_dec ":" ":"); [| congruence].
    rewrite prefix_nil. reflexivity.
  - cbn [all_in_radix] in Hh. destruct (digit_val 10 c) as [d |] eqn:Ed; [| discriminate].
    cbn [append split_aux].
    rewrite (prefix_colon _ _ (digit_not_colon _ _ Ed)).
    rewrite IH by exact Hh. rewrite rev_string_cons, RegexFacts.append_assoc. reflexivity.
Qed.

Lemma split_numeral_last (h : string) :
  forall cur,
    all_in_radix 10 h = true ->
    split_aux ":" O cur h = [rev_string cur ++ h].
Proof.
  induction h as [|c h IH]; intros cur Hh.
  - cbn [split_aux]. rewrite RegexFacts.append_nil_r. reflexivity.
  - cbn [all_in_radix] in Hh. destruct (digit_val 10 c) as [d |] eqn:Ed; [| discriminate].
    cbn [split_aux].
    rewrite (prefix_colon _ _ (digit_not_colon _ _ Ed)).
    rewrite IH by exact Hh. rewrite rev_string_cons, RegexFacts.append_assoc. reflexivity.
Qed.

Lemma numeral_digits (s : string) : is_numeral s = true -> all_in_radix 10 s = true.
Proof.
  unfold is_numeral. intros H. apply andb_true_iff in H as [H _]. exact H.
Qed.

Lemma numeral_not_hex (s : string) : all_in_radix 10 s = true -> is_hex_prefix s = false.
Proof.
  destruct s as [|c [|c' s]]; intros H.
  - reflexivity.
  - destruct c as [[] [] [] [] [] [] [] []]; reflexivity.
  - destruct c as [[] [] [] [] [] [] [] []]; try reflexivity.
    destruct c' as [[] [] [] [] [] [] [] []]; try reflexivity; discriminate H.
Qed.

Lemma parseInt_numeral (s : string) :
  is_numeral s = true -> parseInt s = to_double (decimal s).
Proof.
  intros H. pose proof (numeral_digits _ H) as Hd.
  pose proof (numeral_digits _ H) as Hall.
  pose proof (numeral_not_hex _ Hd) as Hx.
  destruct s as [|c s]; [discriminate H |].
  cbn [all_in_radix] in Hd. destruct (digit_val 10 c) as [d |] eqn:Ed; [| discriminate].
  unfold parseInt. cbn [skip_spaces]. rewrite (digit_not_space _ _ Ed).
  assert (Hsign : (match String c s with
                   | String "-" r => (true, r)
                   | String "+" r => (false, r)
                   | _ => (false, String c s)
                   end) = (false, String c s)).
  { destruct c as [[] [] [] [] [] [] [] []]; try reflexivity; discriminate Ed. }
  rewrite Hsign, Hx. unfold parse_radix, starts_with_digit. rewrite Ed.
  rewrite (parse_digits_decimal _ 0 Hall). rewrite Z.mul_0_l, Z.add_0_l. reflexivity.
Qed.

Lemma numeral_nonnegative (s : string) : is_numeral s = true -> 0 <= decimal s.
Proof.
  intros H. apply decimal_nonnegative, numeral_digits, H.
Qed.

(** [parseInt] of a numeral of at most 53 bits is what the numeral denotes. *)
Lemma parseInt_exact (s : string) :
  is_numeral s = true -> decimal s <= 2 ^ 53 -> parseInt s = Num (decimal s).
Proof.
  intros H Hb. rewrite (parseInt_numeral _ H). apply to_double_exact.
  pose proof (numeral_nonnegative _ H). lia.
Qed.

Lemma truthy_piece (h rest : string) : truthy (VString (h ++ String ":" rest)) = true.
Proof.
  destruct h; reflexivity.
Qed.

Lemma parseDuration_three (h m s : string) :
  is_numeral h = true -> is_numeral m = true -> is_numeral s = true ->
  parseDuration (VString (h ++ ":" ++ m ++ ":" ++ s)) =
  Ok (num_add (num_add (num_mul (num_mul (to_double (decimal h)) (Num 60)) (Num 60))
                       (num_mul (to_double (decimal m)) (Num 60)))
              (to_double (decimal s))).
Proof.
  intros Hh Hm Hs. unfold parseDuration.
  cbn [append]. rewrite truthy_piece. cbn [negb as_string bind]. unfold split.
  rewrite split_numeral_piece by (apply numeral_digits; exact Hh).
  rewrite split_numeral_piece by (apply numeral_digits; exact Hm).
  rewrite split_numeral_last by (apply numeral_digits; exact Hs).
  cbn [rev_string list_ascii_of_string rev string_of_list_ascii append].
  rewrite !parseInt_numeral by assumption. reflexivity.
Qed.

Lemma parseDuration_two (m s : string) :
  is_numeral m = true -> is_numeral s = true ->
  parseDuration (VString (m ++ ":" ++ s)) =
  Ok (num_add (num_mul (to_double (decimal m)) (Num 60)) (to_double (decimal s))).
Proof.
  intros Hm Hs. unfold parseDuration.
  cbn [append]. rewrite truthy_piece. cbn [negb as_string bind]. unfold split.
  rewrite split_numeral_piece by (apply numeral_digits; exact Hm).
  rewrite split_numeral_last by (apply numeral_digits; exact Hs).
  cbn [rev_string list_ascii_of_string rev string_of_list_ascii append].
  rewrite !parseInt_numeral by assumption. reflexivity.
Qed.

Lemma parseDuration_one (s : string) :
  is_numeral s = true -> parseDuration (VString s) = Ok (to_double (decimal s)).
Proof.
  intros Hs. unfold parseDuration.
  assert (Ht : truthy (VString s) = true).
  { destruct s; [discriminate Hs | reflexivity]. }
  rewrite Ht. cbn [negb as_string bind]. unfold split.
  rewrite split_numeral_last by (apply numeral_digits; exact Hs).
  cbn [rev_string list_ascii_of_string rev string_of_list_ascii append].
  rewrite parseInt_numeral by assumption. reflexivity.
Qed.

(** Sums and products of doubles that stay within 53 bits are exact. *)
Lemma num_mul_exact (x y : Z) :
  Z.abs (x * y) <= 2 ^ 53 -> num_mul (Num x) (Num y) = Num (x * y).
Proof.
  intros H. cbn [num_mul]. apply to_double_exact, H.
Qed.

Lemma num_add_exact (x y : Z) :
  Z.abs (x + y) <= 2 ^ 53 -> num_add (Num x) (Num y) = Num (x + y).
Proof.
  intros H. cbn [num_add]. apply to_double_exact, H.
Qed.

Lemma parseDuration_three_exact (h m s : string) :
  is_numeral h = true -> is_numeral m = true -> is_numeral s = true ->
  decimal h * 60 * 60 + decimal m * 60 + decimal s <= 2 ^ 53 ->
  parseDuration (VString (h ++ ":" ++ m ++ ":" ++ s)) =
  Ok (Num (decimal h * 60 * 60 + decimal m * 60 + decimal s)).
Proof.
  intros Hh Hm Hs Hb. rewrite parseDuration_three by assumption.
  pose proof (numeral_nonnegative _ Hh). pose proof (numeral_nonnegative _ Hm).
  pose proof (numeral_nonnegative _ Hs).
  rewrite !to_double_exact by lia.
  rewrite !num_mul_exact by lia. rewrite !num_add_exact by lia. reflexivity.
Qed.

Lemma parseDuration_two_exact (m s : string) :
  is_numeral m = true -> is_numeral s = true ->
  decimal m * 60 + decimal s <= 2 ^ 53 ->
  parseDuration (VString (m ++ ":" ++ s)) = Ok (Num (decimal m * 60 + decimal s)).
Proof.
  intros Hm Hs Hb. rewrite parseDuration_two by assumption.
  pose proof (numeral_nonnegative _ Hm). pose proof (numeral_nonnegative _ Hs).
  rewrite !to_double_exact by lia.
  rewrite !num_mul_exact by lia. rewrite !num_add_exact by lia. reflexivity.
Qed.

Lemma parseDuration_one_exact (s : string) :
  is_numeral s = true -> decimal s <= 2 ^ 53 ->
  parseDuration (VString s) = Ok (Num (decimal s)).
Proof.
  intros Hs Hb. rewrite parseDuration_one by assumption.
  pose proof (numeral_nonnegative _ Hs). rewrite to_double_exact by lia. reflexivity.
Qed.

(** [parseDuration] returns on every text. *)
Lemma parseDuration_total (s : string) : exists d, parseDuration (VString s) = Ok d.
Proof.
  unfold parseDuration. destruct (negb (truthy (VString s))); [eexists; reflexivity |].
  cbn [as_string bind]. eexists; reflexivity.
Qed.

Lemma coalesce_optional_digits (viewCount x : value) :
  optional viewCount (fun viewCount =>
    simple <- get viewCount "simpleText" ;;
    optional simple (fun simple =>
      s <- as_string simple ;; Ok (VString (keep_digits s)))) = Ok x ->
  (nullish (read viewCount "simpleText") = true ->
   coalesce x (VNumber (Num 0)) = VNumber (Num 0)) /\
  (forall s, read viewCount "simpleText" = VString s ->
   coalesce x (VNumber (Num 0)) = VString (keep_digits s)).
Proof.
  unfold optional. intros H. destruct (nullish viewCount) eqn:En.
  - injection H as <-. split; [reflexivity |].
    intros s Hs. destruct viewCount; try discriminate En; discriminate Hs.
  - apply bind_ok in H as (simple & E & H). rewrite (get_read _ _ _ E).
    destruct (nullish simple) eqn:Es.
    + injection H as <-. split; [reflexivity |].
      intros s ->. discriminate Es.
    + split; [discriminate |].
      intros s ->. cbn in H. injection H as <-. reflexivity.
Qed.

(** What [parseVideo] makes of the length, the thumbnails and the view
    count of the entry it accepts. *)
Lemma parseVideo_fields (data : value) (v : YouTubeVideo) :
  parseVideo data = Ok v ->
  truthy (read data "videoRenderer") = true /\
  video_live v = negb (truthy (read (read data "videoRenderer") "lengthText")) /\
  (truthy (read (read data "videoRenderer") "lengthText") = false ->
   video_duration v = Num 0) /\
  (truthy (read (read data "videoRenderer") "lengthText") = true ->
   parseDuration (read (read (read data "videoRenderer") "lengthText") "simpleText")
   = Ok (video_duration v)) /\
  video_thumbnails v = read (read (read data "videoRenderer") "thumbnail") "thumbnails" /\
  (nullish (read (read (read data "videoRenderer") "viewCountText") "simpleText") = true ->
   video_views v = VNumber (Num 0)) /\
  (forall s,
     read (read (read data "videoRenderer") "viewCountText") "simpleText" = VString s ->
     video_views v = VString (keep_digits s)).
Proof.
  intros H. unfold parseVideo in H. invert_ok H.
  injection H as <-. cbn [video_live video_duration video_thumbnails video_views].
  match goal with
  | [ E : optional _ (fun _ => bind _ (fun _ => optional _ _)) = Ok _ |- _ ] =>
      apply coalesce_optional_digits in E as [Hnone Hsome]
  end.
  match goal with
  | [ E : (if truthy _ then bind _ _ else _) = Ok _ |- _ ] => rename E into Hduration
  end.
  repeat match goal with
         | [ E : get _ _ = Ok _ |- _ ] => apply get_read in E; subst
         end.
  match goal with
  | [ C : negb (truthy (read data _)) = false |- _ ] => apply negb_false_iff in C
  end.
  split; [assumption |].
  split; [destruct (truthy _); reflexivity |].
  split; [intros Hf; rewrite Hf in Hduration; congruence |].
  split; [| split; [reflexivity | split; assumption]].
  intros Ht. rewrite Ht in Hduration.
  apply bind_ok in Hduration as (simple & Es & Hduration).
  rewrite (get_read _ _ _ Es). exact Hduration.
Qed.

Lemma last_of_array (l : list value) : last_of (VArray l) = Ok (last l VUndefined).
Proof.
  induction l as [|x l _] using rev_ind; [reflexivity |].
  unfold last_of. cbn [get bind String.eqb Ascii.eqb Bool.eqb to_number num_sub item].
  rewrite last_length, last_last.
  replace (Z.of_nat (S (List.length l)) - 1) with (Z.of_nat (List.length l)) by lia.
  destruct (0 <=? Z.of_nat (List.length l)) eqn:E; [| apply Z.leb_gt in E; lia].
  rewrite Nat2Z.id, nth_middle. reflexivity.
Qed.

Lemma as_string_ok (v : value) (s : string) : as_string v = Ok s -> v = VString s.
Proof.
  destruct v; simpl; intros H; try discriminate. congruence.
Qed.

Lemma get_undefined (k : string) (x : value) : get VUndefined k = Ok x -> False.
Proof.
  discriminate.
Qed.

(** The icon of the channel [parseChannel] accepts. *)
Lemma parseChannel_icon (data : value) (c : YouTubeChannel) (l : list value) :
  parseChannel data = Ok c ->
  read (read (read data "channelRenderer") "thumbnail") "thumbnails" = VArray l ->
  l <> [] /\
  (exists url,
     read (last l VUndefined) "url" = VString url /\
     icon_url (channel_icon c) = replace_first "//" "https://" url) /\
  icon_width (channel_icon c) = read (last l VUndefined) "width" /\
  icon_height (channel_icon c) = read (last l VUndefined) "height".
Proof.
  intros H Hl. unfold parseChannel in H. invert_ok H.
  injection H as <-. cbn [channel_icon icon_url icon_width icon_height].
  match goal with
  | [ E : last_of _ = Ok _ |- _ ] => rename E into Hlast
  end.
  match goal with
  | [ E : as_string _ = Ok _ |- _ ] => apply as_string_ok in E; subst
  end.
  match goal with
  | [ E : get ?t "url" = Ok _ |- _ ] => rename E into Hurl
  end.
  repeat match goal with
         | [ E : get ?v _ = Ok _ |- _ ] =>
             lazymatch v with
             | data => apply get_read in E; subst
             | read _ _ => apply get_read in E; subst
             end
         end.
  rewrite Hl, last_of_array in Hlast. injection Hlast as <-.
  split.
  - intros ->. exact (get_undefined _ _ Hurl).
  - repeat match goal with
           | [ E : get (last l VUndefined) _ = Ok _ |- _ ] => apply get_read in E
           end.
    split; [eexists; split; [eassumption | reflexivity] |].
    split; congruence.
Qed.

(** The thumbnail of the playlist [parsePlaylist] accepts. *)
Lemma parsePlaylist_thumbnail (data : value) (p : YouTubePlayList) (l : list value) :
  parsePlaylist data = Ok p ->
  read (first_of (read (read data "playlistRenderer") "thumbnails")) "thumbnails" = VArray l ->
  l <> [] /\
  pthumb_url (playlist_thumbnail p) = read (last l VUndefined) "url" /\
  pthumb_width (playlist_thumbnail p) = read (last l VUndefined) "width" /\
  pthumb_height (playlist_thumbnail p) = read (last l VUndefined) "height".
Proof.
  intros H Hl. unfold parsePlaylist in H. invert_ok H.
  injection H as <-.
  cbn [playlist_thumbnail pthumb_url pthumb_width pthumb_height].
  match goal with
  | [ E : last_of _ = Ok _ |- _ ] => rename E into Hlast
  end.
  match goal with
  | [ E : get ?t "url" = Ok _ |- _ ] => rename E into Hurl
  end.
  match goal with
  | [ E : get data _ = Ok _ |- _ ] => apply get_read in E; subst
  end.
  match goal with
  | [ E : get (read data _) "thumbnails" = Ok _ |- _ ] => apply get_read in E; subst
  end.
  match goal with
  | [ E : item (read (read data _) _) (Num 0) = Ok _ |- _ ] => apply item_first in E; subst
  end.
  match goal with
  | [ E : get (first_of _) "thumbnails" = Ok _ |- _ ] => apply get_read in E; subst
  end.
  rewrite Hl, last_of_array in Hlast. injection Hlast as <-.
  split.
  - intros ->. exact (get_undefined _ _ Hurl).
  - repeat match goal with
           | [ E : get (last l VUndefined) _ = Ok _ |- _ ] => apply get_read in E
           end.
    repeat split; congruence.
Qed.

(** *** The list walk *)

Lemma no_renderer_truthy (d : value) : no_renderer d = Ok false -> truthy d = true.
Proof.
  destruct d; simpl; intros H; try discriminate; reflexivity.
Qed.

Lemma known_type_cases (t : string) (P : string -> Prop) :
  known_type t -> P "video" -> P "channel" -> P "playlist" -> P t.
Proof.
  intros [-> | [-> | ->]]; auto.
Qed.

Lemma renderer_key_cases (t : string) :
  renderer_key t = "videoRenderer" \/ renderer_key t = "channelRenderer" \/
  renderer_key t = "playlistRenderer".
Proof.
  unfold renderer_key. destruct (String.eqb t "video"); [auto |].
  destruct (String.eqb t "channel"); auto.
Qed.

Lemma carries_no_renderer (t : string) (d : value) :
  carries t d = true -> no_renderer d = Ok false.
Proof.
  unfold carries.
  destruct (renderer_key_cases t) as [-> | [-> | ->]];
    unfold read, no_renderer; destruct d; simpl; try discriminate;
    intros H; rewrite ?H; try reflexivity.
  - destruct (truthy (lookup "videoRenderer" props)); reflexivity.
  - destruct (truthy (lookup "videoRenderer" props)); [reflexivity |].
    destruct (truthy (lookup "channelRenderer" props)); reflexivity.
Qed.

Lemma skipped_not_carries (t : string) (d : value) :
  no_renderer d = Ok true -> carries t d = false.
Proof.
  intros H. destruct (carries t d) eqn:E; [| reflexivity].
  rewrite (carries_no_renderer t d E) in H. discriminate.
Qed.

Lemma parseChannel_renderer (data : value) (c : YouTubeChannel) :
  parseChannel data = Ok c -> truthy (read data "channelRenderer") = true.
Proof.
  intros H. unfold parseChannel in H.
  destruct (negb (truthy data)); [discriminate |].
  apply bind_ok in H as (renderer & E & H). rewrite (get_read _ _ _ E).
  destruct (truthy renderer); [reflexivity | discriminate].
Qed.

Lemma parsePlaylist_renderer (data : value) (p : YouTubePlayList) :
  parsePlaylist data = Ok p -> truthy (read data "playlistRenderer") = true.
Proof.
  intros H. unfold parsePlaylist in H.
  destruct (negb (truthy data)); [discriminate |].
  apply bind_ok in H as (renderer & E & H). rewrite (get_read _ _ _ E).
  destruct (truthy renderer); [reflexivity | discriminate].
Qed.

Lemma parse_detail_carries (t : string) (d : value) (y : YouTube) :
  parse_detail t d = Ok y -> carries t d = true.
Proof.
  unfold parse_detail, carries, renderer_key. intros H.
  destruct (String.eqb t "video").
  - apply bind_ok in H as (v & E & _). apply parseVideo_fields in E. apply E.
  - destruct (String.eqb t "channel").
    + apply bind_ok in H as (c & E & _). exact (parseChannel_renderer _ _ E).
    + destruct (String.eqb t "playlist"); [| discriminate].
      apply bind_ok in H as (p & E & _). exact (parsePlaylist_renderer _ _ E).
Qed.

Lemma not_carries_fails (t : string) (d : value) :
  known_type t -> no_renderer d = Ok false -> carries t d = false ->
  parse_detail t d = Throw (Failed t).
Proof.
  intros Ht Hd. pose proof (no_renderer_truthy d Hd) as Htruthy.
  destruct d; try discriminate Hd. clear Hd. revert Htruthy.
  pattern t. apply (known_type_cases t); [exact Ht | | |];
    unfold carries, renderer_key, read, parse_detail, parseVideo, parseChannel,
      parsePlaylist;
    simpl; intros _ H; rewrite H; reflexivity.
Qed.

Lemma extracted_collects (t : string) (details : list value) :
  Forall (fun d => skipped d \/ extracted t d) details ->
  exists found, collects t details found.
Proof.
  induction 1 as [| d l [Hd | [y Hd]] _ [found IH]].
  - exists []. constructor.
  - exists found. apply collects_skip; assumption.
  - exists (y :: found). apply collects_push; [| assumption | assumption].
    apply (carries_no_renderer t). exact (parse_detail_carries _ _ _ Hd).
Qed.

(** What is collected are the entries that carry the renderer asked for. *)
Lemma collects_carries (t : string) (details : list value) (found : list YouTube) :
  collects t details found ->
  Forall2 (fun d y => parse_detail t d = Ok y) (filter (carries t) details) found.
Proof.
  induction 1 as [| d l r Hd _ IH | d y l r Hd Hy _ IH]; cbn [filter].
  - constructor.
  - rewrite (skipped_not_carries t d Hd). exact IH.
  - rewrite (parse_detail_carries _ _ _ Hy). constructor; assumption.
Qed.

Lemma firstn_exact {A : Type} (l1 l2 : list A) (n : nat) :
  List.length l1 = n -> firstn n (l1 ++ l2)%list = l1.
Proof.
  intros <-. rewrite firstn_app, firstn_all, Nat.sub_diag. cbn [firstn].
  apply app_nil_r.
Qed.

Lemma walk_unlimited (t : string) (lim : option number) (pre : list value)
  (found : list YouTube) :
  hasLimit lim = false ->
  collects t pre found ->
  forall rest acc, walk t lim (pre ++ rest)%list acc = walk t lim rest (acc ++ found)%list.
Proof.
  intros Hlim H.
  induction H as [| d l r Hd _ IH | d y l r Hd Hy _ IH]; intros rest acc;
    cbn [app walk].
  - rewrite app_nil_r. reflexivity.
  - rewrite Hlim, Hd. cbn [andb bind]. apply IH.
  - rewrite Hlim, Hd, Hy. cbn [andb bind]. rewrite IH, <- app_assoc. reflexivity.
Qed.

Lemma limit_test (k : Z) (acc : list YouTube) :
  0 < k ->
  hasLimit (Some (Num k)) && limit_reached acc (Some (Num k)) =
  (Z.of_nat (List.length acc) =? k).
Proof.
  intros Hk. unfold hasLimit, limit_reached, num_positive, num_strict_eq.
  apply Z.ltb_lt in Hk. rewrite Hk. reflexivity.
Qed.

Lemma walk_limited (t : string) (k : Z) (pre : list value) (found : list YouTube) :
  0 < k ->
  collects t pre found ->
  forall rest acc,
    Z.of_nat (List.length acc) <= k ->
    k <= Z.of_nat (List.length acc + List.length found) ->
    walk t (Some (Num k)) (pre ++ rest)%list acc =
    Ok (firstn (Z.to_nat k) (acc ++ found)%list).
Proof.
  intros Hk H.
  induction H as [| d l r Hd _ IH | d y l r Hd Hy _ IH]; intros rest acc Hle Hge;
    cbn [app].
  - cbn [List.length] in Hge. rewrite firstn_exact by lia.
    destruct rest as [| d rest]; [reflexivity |].
    cbn [walk]. rewrite limit_test by exact Hk.
    replace (Z.of_nat (List.length acc) =? k) with true by (symmetry; apply Z.eqb_eq; lia).
    reflexivity.
  - cbn [walk]. rewrite limit_test by exact Hk.
    destruct (Z.of_nat (List.length acc) =? k) eqn:E.
    + apply Z.eqb_eq in E. rewrite firstn_exact by lia. reflexivity.
    + rewrite Hd. cbn [bind]. apply IH; assumption.
  - cbn [walk]. rewrite limit_test by exact Hk.
    destruct (Z.of_nat (List.length acc) =? k) eqn:E.
    + apply Z.eqb_eq in E. rewrite firstn_exact by lia. reflexivity.
    + apply Z.eqb_neq in E. rewrite Hd, Hy. cbn [bind].
      rewrite IH.
      * rewrite <- app_assoc. reflexivity.
      * rewrite length_app. cbn [List.length]. lia.
      * rewrite length_app. cbn [List.length] in *. lia.
Qed.

Lemma walk_bound (t : string) (k : Z) :
  0 < k ->
  forall details acc results,
    Z.of_nat (List.length acc) <= k ->
    walk t (Some (Num k)) details acc = Ok results ->
    Z.of_nat (List.length results) <= k.
Proof.
  intros Hk. induction details as [| d l IH]; intros acc results Hle H; cbn [walk] in H.
  - injection H as <-. exact Hle.
  - rewrite limit_test in H by exact Hk.
    destruct (Z.of_nat (List.length acc) =? k) eqn:E.
    + injection H as <-. exact Hle.
    + apply Z.eqb_neq in E.
      apply bind_ok in H as (skip & _ & H). destruct skip.
      * exact (IH _ _ Hle H).
      * apply bind_ok in H as (y & _ & H).
        apply (IH (acc ++ [y])%list results); [| exact H].
        rewrite length_app. cbn [List.length]. lia.
Qed.

(** Before any result is pushed the limit is not reached, whatever it is. *)
Lemma empty_below_limit (lim : option number) :
  hasLimit lim && limit_reached [] lim = false.
Proof.
  destruct lim as [[| [] | z] |]; try reflexivity.
  unfold hasLimit, limit_reached, num_positive, num_strict_eq.
  cbn [List.length Z.of_nat].
  destruct (0 <? z) eqn:E; [| reflexivity].
  apply Z.ltb_lt in E. cbn [andb]. apply Z.eqb_neq. lia.
Qed.

Lemma walk_skips (t : string) (lim : option number) (pre : list value) :
  Forall skipped pre ->
  forall rest, walk t lim (pre ++ rest)%list [] = walk t lim rest [].
Proof.
  intros H rest.
  induction H as [| d l Hd _ IH]; [reflexivity |].
  cbn [app walk]. rewrite empty_below_limit. unfold skipped in Hd. rewrite Hd. exact IH.
Qed.

Lemma ParseSearchResult_walk JSON_parse html options entries :
  search_details JSON_parse html = Ok (VArray entries) ->
  ParseSearchResult JSON_parse html options =
  walk (requested_type options) (requested_limit options) entries [].
Proof.
  intros H. unfold ParseSearchResult. rewrite H. reflexivity.
Qed.
(** *** The extractors *)

(** C5.  A duration text is read by position: [h:m:s] is
    [h * 60 * 60 + m * 60 + s] seconds, [m:s] is [m * 60 + s] and [s] is
    [s], for decimal numerals [h], [m] and [s]; so "1:02:03" is 3723,
    "02:03" is 123 and "45" is 45, and an empty or absent text is 0.  The
    arithmetic is that of doubles: the seconds are exactly that sum while
    it fits 53 bits, and beyond that every numeral, product and sum is
    rounded (9007199254740993 is read as 9007199254740992).  A video that
    [parseVideo] accepts is live exactly when its [lengthText] is absent
    (falsy), and then its duration is 0; when [lengthText] is present the
    video is not live and its duration is that of [lengthText.simpleText].
    The sample card is accepted with every length text, as a video that is
    not live and lasts what [parseDuration] makes of the text, and without
    a length, as a live video of duration 0. *)
Theorem duration_and_live :
  parseDuration (VString "1:02:03") = Ok (Num 3723) /\
  parseDuration (VString "02:03") = Ok (Num 123) /\
  parseDuration (VString "45") = Ok (Num 45) /\
  parseDuration (VString "") = Ok (Num 0) /\
  parseDuration VUndefined = Ok (Num 0) /\
  parseDuration (VString "9007199254740993") = Ok (Num 9007199254740992) /\
  (forall h m s,
     is_numeral h = true -> is_numeral m = true -> is_numeral s = true ->
     parseDuration (VString (h ++ ":" ++ m ++ ":" ++ s)) =
     Ok (num_add (num_add (num_mul (num_mul (to_double (decimal h)) (Num 60)) (Num 60))
                          (num_mul (to_double (decimal m)) (Num 60)))
                 (to_double (decimal s))) /\
     (decimal h * 60 * 60 + decimal m * 60 + decimal s <= 2 ^ 53 ->
      parseDuration (VString (h ++ ":" ++ m ++ ":" ++ s)) =
      Ok (Num (decimal h * 60 * 60 + decimal m * 60 + decimal s)))) /\
  (forall m s,
     is_numeral m = true -> is_numeral s = true ->
     parseDuration (VString (m ++ ":" ++ s)) =
     Ok (num_add (num_mul (to_double (decimal m)) (Num 60)) (to_double (decimal s))) /\
     (decimal m * 60 + decimal s <= 2 ^ 53 ->
      parseDuration (VString (m ++ ":" ++ s)) = Ok (Num (decimal m * 60 + decimal s)))) /\
  (forall s,
     is_numeral s = true ->
     parseDuration (VString s) = Ok (to_double (decimal s)) /\
     (decimal s <= 2 ^ 53 -> parseDuration (VString s) = Ok (Num (decimal s)))) /\
  (forall data v,
     parseVideo data = Ok v ->
     video_live v = negb (truthy (read (read data "videoRenderer") "lengthText")) /\
     (truthy (read (read data "videoRenderer") "lengthText") = false ->
      video_live v = true /\ video_duration v = Num 0) /\
     (truthy (read (read data "videoRenderer") "lengthText") = true ->
      video_live v = false /\
      parseDuration (read (read (read data "videoRenderer") "lengthText") "simpleText")
      = Ok (video_duration v))) /\
  (forall text,
     exists v d,
       parseVideo (Samples.video_with_length text) = Ok v /\
       video_live v = false /\
       parseDuration (VString text) = Ok d /\ video_duration v = d) /\
  (exists v,
     parseVideo Samples.live_entry = Ok v /\ video_live v = true /\ video_duration v = Num 0).
Proof.
  repeat (split; [reflexivity |]).
  split; [intros h m s Hh Hm Hs; split;
          [exact (parseDuration_three h m s Hh Hm Hs)
          | exact (parseDuration_three_exact h m s Hh Hm Hs)] |].
  split; [intros m s Hm Hs; split;
          [exact (parseDuration_two m s Hm Hs) | exact (parseDuration_two_exact m s Hm Hs)] |].
  split; [intros s Hs; split;
          [exact (parseDuration_one s Hs) | exact (parseDuration_one_exact s Hs)] |].
  split; [| split].
  - intros data v H.
    destruct (parseVideo_fields data v H) as (_ & Hlive & Habsent & Hpresent & _).
    split; [exact Hlive |].
    split; intros Ht; rewrite Ht in Hlive; auto.
  - intros text. destruct (parseDuration_total text) as [d Hd].
    assert (Hv : exists v,
               parseVideo (Samples.video_with_length text) = Ok v /\
               video_live v = false /\ video_duration v = d).
    { unfold parseVideo, Samples.video_with_length.
      cbv -[parseDuration]. rewrite Hd.
      eexists. split; [reflexivity |]. split; reflexivity. }
    destruct Hv as (v & Hv & Hl & Hvd).
    exists v, d. repeat split; assumption.
  - eexists. split; [reflexivity |]. split; reflexivity.
Qed.

(** The text "1:02:03" as three numerals, the sample card with the length
    "3:33", which is not live and lasts 213 seconds, and the sample card
    without a length, which is live. *)
Lemma duration_and_live_witness :
  parseDuration (VString ("1" ++ ":" ++ "02" ++ ":" ++ "03")) = Ok (Num 3723) /\
  (exists v,
     parseVideo Samples.video_entry = Ok v /\ video_live v = false /\
     video_duration v = Num 213) /\
  (exists v,
     parseVideo Samples.live_entry = Ok v /\ video_live v = true /\ video_duration v = Num 0).
Proof.
  destruct duration_and_live as (_ & _ & _ & _ & _ & _ & H3 & _ & _ & Hcond & Htotal & _).
  split; [| split].
  - apply (proj2 (H3 "1" "02" "03" eq_refl eq_refl eq_refl)). vm_compute. discriminate.
  - destruct (Htotal "3:33") as (v & d & Hv & Hl & Hd & Hvd).
    exists v. split; [exact Hv |]. split; [exact Hl |].
    rewrite Hvd. assert (E : Ok d = Ok (Num 213)) by (rewrite <- Hd; reflexivity).
    injection E as ->. reflexivity.
  - eexists. split; [reflexivity |].
    apply (proj1 (proj2 (Hcond Samples.live_entry _ eq_refl))). reflexivity.
Defined.

(** What line 149 makes of the view-count text.  [parseVideo] strips every
    character that is not a digit from it and hands the digits that remain
    to the [YouTubeVideo] constructor as a string, which it does not parse:
    "1,234,567 views" gives the string "1234567", whose digits denote
    1234567.  It hands the number 0 when the view-count text is absent. *)
Lemma view_count_digits :
  (forall data v,
     parseVideo data = Ok v ->
     (nullish (read (read (read data "videoRenderer") "viewCountText") "simpleText") = true ->
      video_views v = VNumber (Num 0)) /\
     (forall s,
        read (read (read data "videoRenderer") "viewCountText") "simpleText" = VString s ->
        video_views v = VString (keep_digits s))) /\
  (forall s, all_in_radix 10 (keep_digits s) = true) /\
  keep_digits "1,234,567 views" = "1234567" /\
  parseInt "1234567" = Num 1234567.
Proof.
  split; [| split; [| split; reflexivity]].
  - intros data v H.
    destruct (parseVideo_fields data v H) as (_ & _ & _ & _ & _ & Hnone & Hsome).
    split; assumption.
  - induction s as [| c s IH]; [reflexivity |].
    cbn [keep_digits]. destruct (is_digit c) eqn:E; [| exact IH].
    cbn [all_in_radix]. unfold is_digit in E. unfold digit_val. rewrite E.
    apply andb_true_iff in E as [E1 E2]. apply Z.leb_le in E1, E2.
    replace (code c - 48 <? 10) with true by (symmetry; apply Z.ltb_lt; lia).
    exact IH.
Qed.


(** C2, as the code has it.  The channel extractor builds the icon from
    the last element of the thumbnails list (its width and height, and its
    URL with the first [//] replaced by [https://]); the playlist extractor
    takes the URL, width and height of the last element of the thumbnails
    list of the first thumbnail group; the video extractor selects nothing
    and hands the whole thumbnails list to the entity. *)
Theorem thumbnail_selection :
  (forall data c l,
     parseChannel data = Ok c ->
     read (read (read data "channelRenderer") "thumbnail") "thumbnails" = VArray l ->
     l <> [] /\
     (exists url,
        read (last l VUndefined) "url" = VString url /\
        icon_url (channel_icon c) = replace_first "//" "https://" url) /\
     icon_width (channel_icon c) = read (last l VUndefined) "width" /\
     icon_height (channel_icon c) = read (last l VUndefined) "height") /\
  (forall data p l,
     parsePlaylist data = Ok p ->
     read (first_of (read (read data "playlistRenderer") "thumbnails")) "thumbnails"
     = VArray l ->
     l <> [] /\
     pthumb_url (playlist_thumbnail p) = read (last l VUndefined) "url" /\
     pthumb_width (playlist_thumbnail p) = read (last l VUndefined) "width" /\
     pthumb_height (playlist_thumbnail p) = read (last l VUndefined) "height") /\
  (forall data v,
     parseVideo data = Ok v ->
     video_thumbnails v = read (read (read data "videoRenderer") "thumbnail") "thumbnails").
Proof.
  split; [| split].
  - intros data c l H Hl. exact (parseChannel_icon data c l H Hl).
  - intros data p l H Hl. exact (parsePlaylist_thumbnail data p l H Hl).
  - intros data v H. apply (parseVideo_fields data v H).
Qed.

(** The sample channel and the sample playlist: both take the larger, last
    thumbnail. *)
Lemma thumbnail_selection_witness :
  (exists c,
     parseChannel Samples.channel_entry = Ok c /\
     icon_width (channel_icon c) = VNumber (Num 176) /\
     icon_height (channel_icon c) = VNumber (Num 176)) /\
  (exists p,
     parsePlaylist Samples.playlist_entry = Ok p /\
     pthumb_url (playlist_thumbnail p) = VString "//i.example/large.jpg").
Proof.
  split.
  - eexists. split; [reflexivity |].
    exact (proj2 (proj2 (proj1 thumbnail_selection Samples.channel_entry _
                           [Samples.small; Samples.large] eq_refl eq_refl))).
  - eexists. split; [reflexivity |].
    exact (proj1 (proj2 (proj1 (proj2 thumbnail_selection) Samples.playlist_entry _
                           [Samples.small; Samples.large] eq_refl eq_refl))).
Defined.

(** C2 as stated fails for videos: the thumbnails of the sample video are
    the list of both thumbnails, not its last element. *)
Lemma video_keeps_all_thumbnails :
  exists v,
    parseVideo Samples.video_entry = Ok v /\
    read (read (read Samples.video_entry "videoRenderer") "thumbnail") "thumbnails"
    = VArray [Samples.small; Samples.large] /\
    video_thumbnails v = VArray [Samples.small; Samples.large] /\
    video_thumbnails v <> Samples.large.
Proof.
  eexists. split; [reflexivity |]. split; [reflexivity |]. split; [reflexivity |].
  discriminate.
Qed.

(** *** The search *)

(** C1, as the code has it.  On a page whose item list is [entries], for
    one of the three types and with [limit = 0]: when every entry either
    has none of the three renderers or is extracted without error, the
    search returns the extraction of exactly the entries that carry the
    renderer of the type asked for, in source order and all of them; the
    entries with no renderer are skipped.  An entry that carries a renderer
    but not the one asked for is not skipped: the call aborts with the
    error of the extractor. *)
Theorem unlimited_search :
  forall JSON_parse html options entries,
    requested_limit options = Some (Num 0) ->
    known_type (requested_type options) ->
    search_details JSON_parse html = Ok (VArray entries) ->
    (Forall (fun d => skipped d \/ extracted (requested_type options) d) entries ->
     exists results,
       ParseSearchResult JSON_parse html options = Ok results /\
       Forall2 (fun d y => parse_detail (requested_type options) d = Ok y)
         (filter (carries (requested_type options)) entries) results /\
       List.length results =
       List.length (filter (carries (requested_type options)) entries)) /\
    (forall pre d rest,
       entries = (pre ++ d :: rest)%list ->
       Forall (fun d => skipped d \/ extracted (requested_type options) d) pre ->
       no_renderer d = Ok false ->
       carries (requested_type options) d = false ->
       ParseSearchResult JSON_parse html options =
       Throw (Failed (requested_type options))).
Proof.
  intros JSON_parse html options entries Hlimit Htype Hdetails.
  rewrite (ParseSearchResult_walk _ _ options _ Hdetails), Hlimit.
  split.
  - intros Hall. destruct (extracted_collects _ _ Hall) as [found Hfound].
    exists found.
    pose proof (walk_unlimited _ (Some (Num 0)) _ _ eq_refl Hfound [] []) as Hwalk.
    rewrite app_nil_r in Hwalk. rewrite Hwalk.
    pose proof (collects_carries _ _ _ Hfound) as Hsame.
    split; [reflexivity |]. split; [exact Hsame |].
    symmetry. exact (Forall2_length Hsame).
  - intros pre d rest -> Hpre Hd Hother.
    destruct (extracted_collects _ _ Hpre) as [found Hfound].
    rewrite (walk_unlimited _ (Some (Num 0)) _ _ eq_refl Hfound).
    cbn [walk hasLimit num_positive Z.ltb Z.compare andb]. rewrite Hd. cbn [bind].
    rewrite (not_carries_fails _ _ Htype Hd Hother). reflexivity.
Qed.

(** A page of a shelf, a video and a live video searched for videos. *)
Lemma unlimited_search_witness :
  exists results,
    ParseSearchResult
      (Samples.parse_as [Samples.shelf_entry; Samples.video_entry; Samples.live_entry])
      Samples.html (Samples.options "video" 0) = Ok results /\
    List.length results = 2%nat.
Proof.
  assert (Hall : Forall (fun d => skipped d \/ extracted "video" d)
                   [Samples.shelf_entry; Samples.video_entry; Samples.live_entry]).
  { apply Forall_cons; [left; reflexivity |].
    apply Forall_cons; [right; eexists; reflexivity |].
    apply Forall_cons; [right; eexists; reflexivity |].
    apply Forall_nil. }
  destruct (proj1 (unlimited_search
                     (Samples.parse_as
                        [Samples.shelf_entry; Samples.video_entry; Samples.live_entry])
                     Samples.html (Samples.options "video" 0)
                     [Samples.shelf_entry; Samples.video_entry; Samples.live_entry]
                     eq_refl (or_introl eq_refl) eq_refl) Hall)
    as (results & Hresults & _ & Hlength).
  exists results. split; [exact Hresults | exact Hlength].
Defined.

(** C1 as stated fails: a channel card in a search for videos is not
    skipped.  Both entries are well formed (each is extracted by the
    extractor of its own renderer) and one of them carries the video
    renderer, yet the search returns no result: it aborts. *)
Lemma other_renderer_aborts :
  (exists c, parseChannel Samples.channel_entry = Ok c) /\
  (exists v, parseVideo Samples.video_entry = Ok v) /\
  List.length (filter (carries "video") [Samples.channel_entry; Samples.video_entry]) = 1%nat /\
  ParseSearchResult (Samples.parse_as [Samples.channel_entry; Samples.video_entry])
    Samples.html (Samples.options "video" 0) = Throw Failed_Video /\
  ~ (exists results,
       ParseSearchResult (Samples.parse_as [Samples.channel_entry; Samples.video_entry])
         Samples.html (Samples.options "video" 0) = Ok results).
Proof.
  split; [eexists; reflexivity |].
  split; [eexists; reflexivity |].
  split; [reflexivity |].
  split; [reflexivity |].
  intros [results H]. discriminate H.
Qed.

(** C4.  With [limit = k > 0] the search returns at most [k] results.
    When the item list starts with entries [pre] that are all skipped or
    extracted and at least [k] of them are extracted, it returns exactly
    the first [k] extractions, whatever follows [pre]: the entries after
    the one that completes the [k] results are neither parsed nor able to
    fail the call. *)
Theorem limited_search :
  forall JSON_parse html options entries k,
    requested_limit options = Some (Num k) ->
    0 < k ->
    search_details JSON_parse html = Ok (VArray entries) ->
    (forall results,
       ParseSearchResult JSON_parse html options = Ok results ->
       Z.of_nat (List.length results) <= k) /\
    (forall pre rest found,
       entries = (pre ++ rest)%list ->
       collects (requested_type options) pre found ->
       k <= Z.of_nat (List.length found) ->
       ParseSearchResult JSON_parse html options = Ok (firstn (Z.to_nat k) found) /\
       Z.of_nat (List.length (firstn (Z.to_nat k) found)) = k /\
       forall rest',
         walk (requested_type options) (Some (Num k)) (pre ++ rest')%list [] =
         Ok (firstn (Z.to_nat k) found)).
Proof.
  intros JSON_parse html options entries k Hlimit Hk Hdetails.
  rewrite (ParseSearchResult_walk _ _ options _ Hdetails), Hlimit.
  split.
  - intros results H.
    apply (walk_bound (requested_type options) k Hk entries [] results);
      [cbn [List.length Z.of_nat]; lia | exact H].
  - intros pre rest found -> Hfound Hlen.
    assert (Hwalk : forall tail,
               walk (requested_type options) (Some (Num k)) (pre ++ tail)%list [] =
               Ok (firstn (Z.to_nat k) found)).
    { intros tail.
      apply (walk_limited _ _ _ _ Hk Hfound tail []); cbn [List.length Nat.add]; lia. }
    split; [apply Hwalk |]. split; [| exact Hwalk].
    rewrite length_firstn. lia.
Qed.

(** Two results are asked for; the page has three videos and then a channel
    card, which would abort the search if it were reached. *)
Lemma limited_search_witness :
  exists results,
    ParseSearchResult
      (Samples.parse_as [Samples.shelf_entry; Samples.video_entry; Samples.live_entry;
                         Samples.video_entry; Samples.channel_entry])
      Samples.html (Samples.options "video" 2) = Ok results /\
    Z.of_nat (List.length results) = 2.
Proof.
  eexists.
  refine (let H := proj2 (limited_search
            (Samples.parse_as [Samples.shelf_entry; Samples.video_entry; Samples.live_entry;
                               Samples.video_entry; Samples.channel_entry])
            Samples.html (Samples.options "video" 2)
            [Samples.shelf_entry; Samples.video_entry; Samples.live_entry;
             Samples.video_entry; Samples.channel_entry]
            2 eq_refl eq_refl eq_refl)
            [Samples.shelf_entry; Samples.video_entry; Samples.live_entry]
            [Samples.video_entry; Samples.channel_entry]
            _ eq_refl _ _ in conj (proj1 H) (proj1 (proj2 H))).
  - apply collects_skip; [reflexivity |].
    eapply collects_push; [reflexivity | reflexivity |].
    eapply collects_push; [reflexivity | reflexivity |].
    apply collects_nil.
  - cbn [List.length]. lia.
Defined.

(** C9.  With a type that is none of the three, the error for the unknown
    type is raised at the first entry that has one of the three renderers,
    whatever the limit: when every entry lacks all three, and so when the
    list is empty, the search returns the empty array. *)
Theorem unknown_type_deferred :
  forall JSON_parse html options entries,
    ~ known_type (requested_type options) ->
    search_details JSON_parse html = Ok (VArray entries) ->
    (Forall skipped entries -> ParseSearchResult JSON_parse html options = Ok []) /\
    (forall pre d rest,
       entries = (pre ++ d :: rest)%list ->
       Forall skipped pre ->
       no_renderer d = Ok false ->
       ParseSearchResult JSON_parse html options =
       Throw (Unknown_type (requested_type options))).
Proof.
  intros JSON_parse html options entries Htype Hdetails.
  rewrite (ParseSearchResult_walk _ _ options _ Hdetails).
  split.
  - intros Hall. rewrite <- (app_nil_r entries).
    rewrite (walk_skips _ _ _ Hall). reflexivity.
  - intros pre d rest -> Hpre Hd.
    rewrite (walk_skips _ _ _ Hpre). cbn [walk].
    rewrite empty_below_limit, Hd. cbn [bind]. unfold parse_detail.
    destruct (String.eqb (requested_type options) "video") eqn:E1;
      [apply String.eqb_eq in E1; exfalso; apply Htype; left; exact E1 |].
    destruct (String.eqb (requested_type options) "channel") eqn:E2;
      [apply String.eqb_eq in E2; exfalso; apply Htype; right; left; exact E2 |].
    destruct (String.eqb (requested_type options) "playlist") eqn:E3;
      [apply String.eqb_eq in E3; exfalso; apply Htype; right; right; exact E3 |].
    reflexivity.
Qed.

(** A search of type [all]: a page of shelves gives the empty array. *)
Lemma unknown_type_deferred_witness :
  ParseSearchResult (Samples.parse_as [Samples.shelf_entry; Samples.shelf_entry])
    Samples.html (Samples.options "all" 0) = Ok [].
Proof.
  apply (proj1 (unknown_type_deferred
                  (Samples.parse_as [Samples.shelf_entry; Samples.shelf_entry])
                  Samples.html (Samples.options "all" 0)
                  [Samples.shelf_entry; Samples.shelf_entry]
                  ltac:(intros [H | [H | H]]; discriminate H) eq_refl)).
  repeat constructor.
Defined.

End ParserFacts.

(** ** parser.ts: the embedded data *)

Module FramingFacts.
Import JS Parser Words Framing JSFacts.

Lemma split_absent (sep s : string) :
  includes sep s = false ->
  forall cur, split_aux sep O cur s = [rev_string cur ++ s].
Proof.
  induction s as [| c s IH]; intros H cur.
  - cbn [split_aux]. rewrite RegexFacts.append_nil_r. reflexivity.
  - cbn [includes] in H. apply orb_false_iff in H as [Hp Hs].
    cbn [split_aux]. rewrite Hp, (IH Hs), rev_string_cons, RegexFacts.append_assoc.
    reflexivity.
Qed.

Lemma split_skip (sep x : string) :
  forall cur b, split_aux sep (String.length x) cur (x ++ b) = split_aux sep O cur b.
Proof.
  induction x as [| c x IH]; intros cur b; [reflexivity |].
  cbn [String.length append split_aux]. apply IH.
Qed.

Lemma prefix_append (s t : string) : prefix s (s ++ t) = true.
Proof.
  induction s as [| c s IH]; cbn [append prefix].
  - destruct t; reflexivity.
  - destruct (ascii_dec c c); [exact IH | congruence].
Qed.

Lemma split_first (c0 : ascii) (sep' a b : string) :
  forall cur,
    no_start (String c0 sep') a (String c0 sep' ++ b) = true ->
    split_aux (String c0 sep') O cur (a ++ String c0 sep' ++ b) =
    (rev_string cur ++ a) :: split_aux (String c0 sep') O EmptyString b.
Proof.
  induction a as [| c a IH]; intros cur H.
  - cbn [append split_aux]. rewrite RegexFacts.append_nil_r.
    change (String c0 (sep' ++ b)) with (String c0 sep' ++ b).
    rewrite prefix_append. cbn [String.length Nat.pred]. rewrite split_skip. reflexivity.
  - cbn [no_start] in H. apply andb_true_iff in H as [Hp Hs].
    apply negb_true_iff in Hp.
    change ((String c a) ++ String c0 sep' ++ b) with (String c (a ++ String c0 sep' ++ b)) in *.
    cbn [split_aux]. rewrite Hp, (IH _ Hs), rev_string_cons, RegexFacts.append_assoc.
    reflexivity.
Qed.

Lemma split_aux_cons (sep s : string) :
  forall cur, exists p ps, split_aux sep O cur s = (rev_string cur ++ p) :: ps.
Proof.
  induction s as [| c s IH]; intros cur.
  - exists EmptyString, []. cbn [split_aux]. rewrite RegexFacts.append_nil_r. reflexivity.
  - cbn [split_aux]. destruct (prefix sep (String c s)).
    + exists EmptyString. eexists. rewrite RegexFacts.append_nil_r. reflexivity.
    + destruct (IH (String c cur)) as (p & ps & E). exists (String c p), ps.
      rewrite E, rev_string_cons, RegexFacts.append_assoc. reflexivity.
Qed.

Lemma split_head (sep a tail : string) :
  forall cur,
    no_start sep a tail = true ->
    exists p ps, split_aux sep O cur (a ++ tail) = (rev_string cur ++ a ++ p) :: ps.
Proof.
  induction a as [| c a IH]; intros cur H.
  - cbn [append]. apply split_aux_cons.
  - cbn [no_start] in H. apply andb_true_iff in H as [Hp Hs].
    apply negb_true_iff in Hp.
    change ((String c a) ++ tail) with (String c (a ++ tail)) in *.
    cbn [split_aux]. rewrite Hp. destruct (IH (String c cur) Hs) as (p & ps & E).
    exists p, ps. rewrite E, rev_string_cons, RegexFacts.append_assoc. reflexivity.
Qed.

Lemma prefix_long (s : string) :
  forall a y, (String.length s <= String.length a)%nat -> prefix s (a ++ y) = prefix s a.
Proof.
  induction s as [| c s IH]; intros a y H.
  - destruct a, y; reflexivity.
  - destruct a as [| d a]; [cbn in H; lia |].
    cbn [append prefix]. destruct (ascii_dec c d); [| reflexivity].
    apply IH. cbn [String.length] in H. lia.
Qed.

Lemma length_append (s t : string) :
  String.length (s ++ t) = (String.length s + String.length t)%nat.
Proof.
  induction s; cbn [append String.length Nat.add]; congruence.
Qed.

(** Whether [sep] begins inside [a] is decided within [a ++ sep]. *)
Lemma no_start_tail (sep a y : string) :
  no_start sep a (sep ++ y) = no_start sep a sep.
Proof.
  induction a as [| c a IH]; [reflexivity |].
  cbn [no_start]. rewrite IH. f_equal. f_equal.
  rewrite <- RegexFacts.append_assoc. apply prefix_long.
  rewrite length_append. cbn [String.length]. lia.
Qed.

Lemma before_first_unmatched (r : Regex.regex) (s : string) :
  unmatched r s = true -> Regex.before_first r s = s.
Proof.
  induction s as [| c s IH]; [reflexivity |].
  cbn [unmatched Regex.before_first]. intros H.
  apply andb_true_iff in H as [Hm Hs]. apply negb_true_iff in Hm.
  rewrite Hm, (IH Hs). reflexivity.
Qed.

Lemma framed_not_empty (pre rest : string) :
  String.eqb (pre ++ "var ytInitialData = " ++ rest) "" = false.
Proof.
  destruct pre; reflexivity.
Qed.

(** X1.  A page that does not contain the assignment prefix
    [var ytInitialData = ] cannot be searched, whatever the options and
    whatever [JSON.parse] would answer: the empty text throws "Can't parse
    Search result without data" and every other text a [SyntaxError]. *)
Theorem missing_marker :
  forall JSON_parse html options,
    includes "var ytInitialData = " html = false ->
    ParseSearchResult JSON_parse html options =
    Throw (if String.eqb html "" then No_data else SyntaxError).
Proof.
  intros JSON_parse html options H.
  unfold ParseSearchResult, search_details, embedded_data, split.
  rewrite (split_absent _ _ H). destruct (String.eqb html ""); reflexivity.
Qed.

(** A page with no script at all. *)
Lemma missing_marker_witness :
  ParseSearchResult (fun _ => Some VNull) "<html></html>" None = Throw SyntaxError.
Proof.
  exact (missing_marker (fun _ => Some VNull) "<html></html>" None eq_refl).
Defined.

Lemma read_defined (v : value) (k : string) :
  read v k <> VUndefined -> get v k = Ok (read v k) /\ v <> VUndefined.
Proof.
  unfold read. destruct (get v k) as [x | e] eqn:E; intros H; [| congruence].
  split; [reflexivity |]. intros ->. discriminate E.
Qed.

Lemma first_of_defined (v : value) :
  first_of v <> VUndefined -> item v (Num 0) = Ok (first_of v) /\ v <> VUndefined.
Proof.
  unfold first_of. destruct (item v (Num 0)) as [x | e] eqn:E; intros H; [| congruence].
  split; [reflexivity |]. intros ->. discriminate E.
Qed.

(** The chain of lines 33-37 returns the item list of every page that has
    one. *)
Lemma item_list_found (json_data : value) (entries : list value) :
  item_list json_data = VArray entries ->
  (contents <- get json_data "contents" ;;
   two <- get contents "twoColumnSearchResultsRenderer" ;;
   primary <- get two "primaryContents" ;;
   section <- get primary "sectionListRenderer" ;;
   sections <- get section "contents" ;;
   first <- item sections (Num 0) ;;
   items <- get first "itemSectionRenderer" ;;
   get items "contents")%js = Ok (VArray entries).
Proof.
  unfold item_list. intros H.
  assert (H8 : read (read (first_of
    (read (read (read (read (read json_data "contents")
                            "twoColumnSearchResultsRenderer")
                      "primaryContents")
                "sectionListRenderer")
          "contents"))
    "itemSectionRenderer") "contents" <> VUndefined) by (rewrite H; discriminate).
  apply read_defined in H8 as [E8 H7].
  apply read_defined in H7 as [E7 H6].
  apply first_of_defined in H6 as [E6 H5].
  apply read_defined in H5 as [E5 H4].
  apply read_defined in H4 as [E4 H3].
  apply read_defined in H3 as [E3 H2].
  apply read_defined in H2 as [E2 H1].
  apply read_defined in H1 as [E1 _].
  rewrite E1. cbn [bind]. rewrite E2. cbn [bind]. rewrite E3. cbn [bind].
  rewrite E4. cbn [bind]. rewrite E5. cbn [bind]. rewrite E6. cbn [bind].
  rewrite E7. cbn [bind]. rewrite E8. exact (f_equal Ok H).
Qed.

(** X2.  Framing and extraction are inverse: from a page made of any text
    [pre], the assignment prefix, a payload [data], the script terminator
    and any text [post], lines 29-32 recover exactly [data], provided the
    prefix begins neither inside [pre] nor inside the payload and its
    terminator, the terminator does not begin inside the payload, and the
    payload holds no semicolon followed by a declaration.  Whatever the
    payload parses to, when the place of the item list in it holds a list,
    that list is the one the search walks; every other key of the parsed
    page is ignored. *)
Theorem framed_data :
  forall pre data post,
    no_start "var ytInitialData = " pre "var ytInitialData = " = true ->
    no_start "var ytInitialData = " (data ++ ";</script>") post = true ->
    no_start ";</script>" data ";</script>" = true ->
    unmatched declaration data = true ->
    embedded_data (pre ++ "var ytInitialData = " ++ data ++ ";</script>" ++ post)
    = Some data /\
    (forall JSON_parse json_data entries,
       JSON_parse data = Some json_data ->
       item_list json_data = VArray entries ->
       search_details JSON_parse
         (pre ++ "var ytInitialData = " ++ data ++ ";</script>" ++ post)
       = Ok (VArray entries) /\
       forall options,
         ParseSearchResult JSON_parse
           (pre ++ "var ytInitialData = " ++ data ++ ";</script>" ++ post) options
         = walk (requested_type options) (requested_limit options) entries []).
Proof.
  intros pre data post Hpre Hdata Hterm Hdecl.
  assert (E : embedded_data
                (pre ++ "var ytInitialData = " ++ data ++ ";</script>" ++ post)
              = Some data).
  { unfold embedded_data, split.
    rewrite split_first by (rewrite no_start_tail; exact Hpre).
    rewrite <- RegexFacts.append_assoc.
    destruct (split_head _ _ _ EmptyString Hdata) as (p & ps & E). rewrite E.
    cbn [rev_string list_ascii_of_string rev string_of_list_ascii append].
    rewrite !RegexFacts.append_assoc.
    rewrite split_first by (rewrite no_start_tail; exact Hterm).
    cbn [hd rev_string list_ascii_of_string rev string_of_list_ascii append].
    rewrite before_first_unmatched by exact Hdecl. reflexivity. }
  split; [exact E |].
  intros JSON_parse json_data entries Hparse Hlist.
  assert (Hd : search_details JSON_parse
                 (pre ++ "var ytInitialData = " ++ data ++ ";</script>" ++ post)
               = Ok (VArray entries)).
  { unfold search_details.
    rewrite framed_not_empty, E, Hparse. exact (item_list_found _ _ Hlist). }
  split; [exact Hd |].
  intros options. unfold ParseSearchResult. rewrite Hd. reflexivity.
Qed.

(** A page with markup around the script and a second script after it; its
    payload parses to a page that holds more than the item list, in which
    the search finds the one card. *)
Lemma framed_data_witness :
  embedded_data
    ("<body><script>" ++ "var ytInitialData = " ++ "{ 1: [2;3] }" ++ ";</script>"
     ++ "<script>var later = 0;</script></body>")
  = Some "{ 1: [2;3] }" /\
  search_details
    (MoreSamples.parse_one "{ 1: [2;3] }" (MoreSamples.full_page [Samples.channel_entry]))
    ("<body><script>" ++ "var ytInitialData = " ++ "{ 1: [2;3] }" ++ ";</script>"
     ++ "<script>var later = 0;</script></body>")
  = Ok (VArray [Samples.channel_entry]) /\
  exists c,
    ParseSearchResult
      (MoreSamples.parse_one "{ 1: [2;3] }" (MoreSamples.full_page [Samples.channel_entry]))
      ("<body><script>" ++ "var ytInitialData = " ++ "{ 1: [2;3] }" ++ ";</script>"
       ++ "<script>var later = 0;</script></body>")
      (Samples.options "channel" 0)
    = Ok [Channel c].
Proof.
  pose proof (framed_data "<body><script>" "{ 1: [2;3] }"
                "<script>var later = 0;</script></body>"
                eq_refl eq_refl eq_refl eq_refl) as [Hdata Hwalk].
  split; [exact Hdata |].
  destruct (Hwalk (MoreSamples.parse_one "{ 1: [2;3] }"
                     (MoreSamples.full_page [Samples.channel_entry]))
              (MoreSamples.full_page [Samples.channel_entry])
              [Samples.channel_entry] eq_refl eq_refl) as [Hd Hsearch].
  split; [exact Hd |].
  eexists. rewrite Hsearch. reflexivity.
Defined.

End FramingFacts.

(** ** parser.ts: limits and result types *)

Module SearchFacts.
Import JS Parser Words JSFacts ParserFacts Outcomes.
Local Open Scope js_scope.

Lemma walk_same_without_limit (t : string) (lim lim' : option number) :
  hasLimit lim = false -> hasLimit lim' = false ->
  forall details acc, walk t lim details acc = walk t lim' details acc.
Proof.
  intros H H'. induction details as [| d l IH]; intros acc; [reflexivity |].
  cbn [walk]. rewrite H, H'. cbn [andb].
  destruct (no_renderer d) as [[|] | e]; cbn [bind]; [apply IH | | reflexivity].
  destruct (parse_detail t d); cbn [bind]; [apply IH | reflexivity].
Qed.

Lemma walk_collects (t : string) (lim : option number) :
  hasLimit lim = false ->
  forall details acc results,
    walk t lim details acc = Ok results ->
    exists found, collects t details found /\ results = (acc ++ found)%list.
Proof.
  intros Hlim. induction details as [| d l IH]; intros acc results H; cbn [walk] in H.
  - injection H as <-. exists []. split; [constructor | symmetry; apply app_nil_r].
  - rewrite Hlim in H. cbn [andb] in H.
    apply bind_ok in H as (skip & Hd & H). destruct skip.
    + destruct (IH _ _ H) as (found & Hfound & ->).
      exists found. split; [apply collects_skip; assumption | reflexivity].
    + apply bind_ok in H as (y & Hy & H).
      destruct (IH _ _ H) as (found & Hfound & ->).
      exists (y :: found). split; [apply collects_push; assumption |].
      rewrite <- app_assoc. reflexivity.
Qed.

Lemma walk_limited_all (t : string) (k : Z) (details : list value) (found : list YouTube) :
  0 < k ->
  collects t details found ->
  forall acc,
    Z.of_nat (List.length acc) <= k ->
    walk t (Some (Num k)) details acc = Ok (firstn (Z.to_nat k) (acc ++ found)%list).
Proof.
  intros Hk H.
  induction H as [| d l r Hd _ IH | d y l r Hd Hy _ IH]; intros acc Hle.
  - cbn [walk]. rewrite app_nil_r, firstn_all2 by lia. reflexivity.
  - cbn [walk]. rewrite limit_test by exact Hk.
    destruct (Z.of_nat (List.length acc) =? k) eqn:E.
    + apply Z.eqb_eq in E. rewrite firstn_exact by lia. reflexivity.
    + rewrite Hd. cbn [bind]. apply IH; assumption.
  - cbn [walk]. rewrite limit_test by exact Hk.
    destruct (Z.of_nat (List.length acc) =? k) eqn:E.
    + apply Z.eqb_eq in E. rewrite firstn_exact by lia. reflexivity.
    + apply Z.eqb_neq in E. rewrite Hd, Hy. cbn [bind]. rewrite IH.
      * rewrite <- app_assoc. reflexivity.
      * rewrite length_app. cbn [List.length]. lia.
Qed.

Lemma parse_detail_of_type (t : string) (d : value) (y : YouTube) :
  parse_detail t d = Ok y -> of_type t y.
Proof.
  unfold parse_detail. intros H.
  destruct (String.eqb t "video") eqn:E1.
  - apply bind_ok in H as (v & _ & H). injection H as <-.
    apply String.eqb_eq in E1. exact E1.
  - destruct (String.eqb t "channel") eqn:E2.
    + apply bind_ok in H as (c & _ & H). injection H as <-.
      apply String.eqb_eq in E2. exact E2.
    + destruct (String.eqb t "playlist") eqn:E3; [| discriminate].
      apply bind_ok in H as (p & _ & H). injection H as <-.
      apply String.eqb_eq in E3. split; [exact E3 | reflexivity].
Qed.

Lemma walk_of_type (t : string) (lim : option number) :
  forall details acc results,
    Forall (of_type t) acc ->
    walk t lim details acc = Ok results ->
    Forall (of_type t) results.
Proof.
  induction details as [| d l IH]; intros acc results Hacc H; cbn [walk] in H.
  - injection H as <-. exact Hacc.
  - destruct (hasLimit lim && limit_reached acc lim).
    + injection H as <-. exact Hacc.
    + apply bind_ok in H as (skip & _ & H). destruct skip; [exact (IH _ _ Hacc H) |].
      apply bind_ok in H as (y & Hy & H). apply (IH _ _) in H; [exact H |].
      apply Forall_app. split; [exact Hacc |].
      constructor; [exact (parse_detail_of_type _ _ _ Hy) | constructor].
Qed.

Lemma ParseSearchResult_ok JSON_parse html options results :
  ParseSearchResult JSON_parse html options = Ok results ->
  exists details entries,
    search_details JSON_parse html = Ok details /\
    iterate details = Ok entries /\
    walk (requested_type options) (requested_limit options) entries [] = Ok results.
Proof.
  unfold ParseSearchResult. intros H.
  apply bind_ok in H as (details & Hd & H). apply bind_ok in H as (entries & He & H).
  eauto.
Qed.

(** X3.  A limit that is absent, zero, negative or not a number does not
    bound the search: two calls that ask for the same type (an absent or
    empty type being [video]) with such limits give the same outcome,
    results and errors alike.  In particular leaving the options out is
    asking for videos with limit 0. *)
Theorem limit_without_effect :
  forall JSON_parse html options options',
    requested_type options = requested_type options' ->
    hasLimit (requested_limit options) = false ->
    hasLimit (requested_limit options') = false ->
    ParseSearchResult JSON_parse html options = ParseSearchResult JSON_parse html options'.
Proof.
  intros JSON_parse html options options' Ht H H'. unfold ParseSearchResult.
  destruct (search_details JSON_parse html) as [details | e]; [| reflexivity].
  cbn [bind]. destruct (iterate details) as [entries | e]; [| reflexivity].
  cbn [bind]. rewrite Ht. apply walk_same_without_limit; assumption.
Qed.

(** No options at all, and an empty type with a limit that is not a number. *)
Lemma limit_without_effect_witness :
  ParseSearchResult (Samples.parse_as [Samples.video_entry; Samples.live_entry])
    Samples.html None =
  ParseSearchResult (Samples.parse_as [Samples.video_entry; Samples.live_entry])
    Samples.html (Some {| type := Some ""; limit := Some NaN; language := Some "en" |}).
Proof.
  apply (limit_without_effect
           (Samples.parse_as [Samples.video_entry; Samples.live_entry]) Samples.html None);
    reflexivity.
Defined.

(** X4.  A positive limit only truncates: when the search without a bound
    returns [results], the search for the same type with [limit = k > 0]
    returns the first [k] of them (all of them when there are fewer). *)
Theorem limited_is_prefix :
  forall JSON_parse html options options' k results,
    requested_type options = requested_type options' ->
    hasLimit (requested_limit options) = false ->
    requested_limit options' = Some (Num k) ->
    0 < k ->
    ParseSearchResult JSON_parse html options = Ok results ->
    ParseSearchResult JSON_parse html options' = Ok (firstn (Z.to_nat k) results).
Proof.
  intros JSON_parse html options options' k results Ht Hlim Hk Hpos H.
  apply ParseSearchResult_ok in H as (details & entries & Hd & He & H).
  apply (walk_collects _ _ Hlim) in H as (found & Hfound & ->).
  unfold ParseSearchResult. rewrite Hd. cbn [bind]. rewrite He. cbn [bind].
  rewrite <- Ht, Hk.
  apply (walk_limited_all _ _ _ _ Hpos Hfound []). cbn [List.length Z.of_nat]. lia.
Qed.

(** X5.  The results of a search are all of the type asked for: videos
    for [video], channels for [channel], and for [playlist] playlists built
    with the flag [true]. *)
Theorem results_of_requested_type :
  forall JSON_parse html options results,
    ParseSearchResult JSON_parse html options = Ok results ->
    Forall (of_type (requested_type options)) results.
Proof.
  intros JSON_parse html options results H.
  apply ParseSearchResult_ok in H as (details & entries & _ & _ & H).
  exact (walk_of_type _ _ _ _ _ (Forall_nil _) H).
Qed.

(** Three videos, searched without a bound and with limit 2. *)
Lemma limited_is_prefix_witness :
  exists results,
    ParseSearchResult
      (Samples.parse_as [Samples.video_entry; Samples.live_entry; Samples.video_entry])
      Samples.html (Samples.options "video" 0) = Ok results /\
    ParseSearchResult
      (Samples.parse_as [Samples.video_entry; Samples.live_entry; Samples.video_entry])
      Samples.html (Samples.options "video" 2) = Ok (firstn 2 results).
Proof.
  eexists. split; [reflexivity |].
  exact (limited_is_prefix
           (Samples.parse_as [Samples.video_entry; Samples.live_entry; Samples.video_entry])
           Samples.html (Samples.options "video" 0) (Samples.options "video" 2) 2 _
           eq_refl eq_refl eq_refl eq_refl eq_refl).
Defined.

(** A search for playlists. *)
Lemma results_of_requested_type_witness :
  exists results,
    ParseSearchResult (Samples.parse_as [Samples.shelf_entry; Samples.playlist_entry])
      Samples.html (Samples.options "playlist" 0) = Ok results /\
    Forall (of_type "playlist") results.
Proof.
  eexists. split; [reflexivity |].
  exact (results_of_requested_type
           (Samples.parse_as [Samples.shelf_entry; Samples.playlist_entry])
           Samples.html (Samples.options "playlist" 0) _ eq_refl).
Defined.

End SearchFacts.

(** ** parser.ts: errors *)

Module ErrorFacts.
Import JS Parser Words JSFacts ParserFacts Outcomes.
Local Open Scope js_scope.

Lemma only_Ok {A : Type} (a : A) : only_TypeError (Ok a).
Proof.
  intros e H. discriminate H.
Qed.

Lemma only_Throw {A : Type} : only_TypeError (@Throw A TypeError).
Proof.
  intros e H. congruence.
Qed.

Lemma only_bind {A B : Type} (m : result A) (k : A -> result B) :
  only_TypeError m -> (forall a, only_TypeError (k a)) -> only_TypeError (bind m k).
Proof.
  intros Hm Hk e H. destruct m as [a | e']; cbn [bind] in H.
  - exact (Hk a e H).
  - injection H as <-. apply Hm. reflexivity.
Qed.

Lemma only_get (v : value) (k : string) : only_TypeError (get v k).
Proof.
  intros e H. exact (SoundCloudFacts.get_throws _ _ _ H).
Qed.

Lemma only_item (v : value) (i : number) : only_TypeError (item v i).
Proof.
  intros e H. exact (SoundCloudFacts.item_throws _ _ _ H).
Qed.

Lemma only_as_string (v : value) : only_TypeError (as_string v).
Proof.
  intros e H. destruct v; cbn in H; congruence.
Qed.

Lemma only_as_array (v : value) : only_TypeError (as_array v).
Proof.
  intros e H. destruct v; cbn in H; congruence.
Qed.

Lemma only_optional (v : value) (k : value -> result value) :
  (forall x, only_TypeError (k x)) -> only_TypeError (optional v k).
Proof.
  intros Hk. unfold optional. destruct (nullish v); [apply only_Ok | apply Hk].
Qed.

Lemma only_mapM {A B : Type} (f : A -> result B) (l : list A) :
  (forall a, only_TypeError (f a)) -> only_TypeError (mapM f l).
Proof.
  intros Hf. induction l as [| a l IH]; cbn [mapM]; [apply only_Ok |].
  apply only_bind; [apply Hf | intros b].
  apply only_bind; [exact IH | intros bs; apply only_Ok].
Qed.

(** Decomposes a computation made of the steps above. *)
Ltac only_steps :=
  repeat first
    [ apply only_Ok
    | apply only_Throw
    | apply only_get
    | apply only_item
    | apply only_as_string
    | apply only_as_array
    | apply only_optional; intros ?
    | apply only_mapM; intros ?
    | apply only_bind; [| intros ?]
    | match goal with
      | [ |- only_TypeError (if ?c then _ else _) ] => destruct c
      end ].

Lemma only_badge_of (renderer : value) : only_TypeError (badge_of renderer).
Proof.
  unfold badge_of. only_steps.
Qed.

Lemma only_badge_has (badge : value) (word : string) : only_TypeError (badge_has badge word).
Proof.
  unfold badge_has. only_steps.
Qed.

Lemma only_canonical_url (owner : value) : only_TypeError (canonical_url owner).
Proof.
  unfold canonical_url. only_steps.
Qed.

Lemma only_last_of (list : value) : only_TypeError (last_of list).
Proof.
  unfold last_of. only_steps.
Qed.

Lemma only_description_of (renderer : value) : only_TypeError (description_of renderer).
Proof.
  unfold description_of. only_steps.
Qed.

Lemma only_parseDuration (duration : value) : only_TypeError (parseDuration duration).
Proof.
  unfold parseDuration. only_steps.
Qed.

Ltac only_extractor :=
  repeat first
    [ apply only_badge_of
    | apply only_badge_has
    | apply only_canonical_url
    | apply only_last_of
    | apply only_description_of
    | apply only_parseDuration
    | progress only_steps ].

(** An entry that carries the renderer is an object. *)
Lemma carries_object (t : string) (data : value) :
  carries t data = true ->
  truthy data = true /\
  exists renderer, get data (renderer_key t) = Ok renderer /\ truthy renderer = true.
Proof.
  unfold carries, read.
  destruct (renderer_key_cases t) as [-> | [-> | ->]];
    destruct data; cbn; try discriminate; intros H; (split; [reflexivity | eauto]).
Qed.

Lemma not_carries_falsy (t : string) (data : value) :
  carries t data = false ->
  truthy data = false \/
  exists renderer, get data (renderer_key t) = Ok renderer /\ truthy renderer = false.
Proof.
  unfold carries, read. destruct data; cbn [get]; intros H; eauto.
Qed.

Lemma parseVideo_outcome (data : value) :
  (carries "video" data = false -> parseVideo data = Throw Failed_Video) /\
  (carries "video" data = true -> only_TypeError (parseVideo data)).
Proof.
  unfold parseVideo. split; intros H.
  - apply not_carries_falsy in H as [H | (r & Hr & H)].
    + rewrite H. reflexivity.
    + destruct (negb (truthy data)); [reflexivity |].
      change (renderer_key "video") with "videoRenderer" in Hr.
      rewrite Hr. cbn [bind]. rewrite H. reflexivity.
  - apply carries_object in H as (Hd & r & Hr & H).
    change (renderer_key "video") with "videoRenderer" in Hr.
    rewrite Hd, Hr. cbn [negb bind]. rewrite H. cbn [negb]. only_extractor.
Qed.

Lemma parseChannel_outcome (data : value) :
  (carries "channel" data = false -> parseChannel data = Throw Failed_Channel) /\
  (carries "channel" data = true -> only_TypeError (parseChannel data)).
Proof.
  unfold parseChannel. split; intros H.
  - apply not_carries_falsy in H as [H | (r & Hr & H)].
    + rewrite H. reflexivity.
    + destruct (negb (truthy data)); [reflexivity |].
      change (renderer_key "channel") with "channelRenderer" in Hr.
      rewrite Hr. cbn [bind]. rewrite H. reflexivity.
  - apply carries_object in H as (Hd & r & Hr & H).
    change (renderer_key "channel") with "channelRenderer" in Hr.
    rewrite Hd, Hr. cbn [negb bind]. rewrite H. cbn [negb]. only_extractor.
Qed.

Lemma parsePlaylist_outcome (data : value) :
  (carries "playlist" data = false -> parsePlaylist data = Throw Failed_Playlist) /\
  (carries "playlist" data = true -> only_TypeError (parsePlaylist data)).
Proof.
  unfold parsePlaylist. split; intros H.
  - apply not_carries_falsy in H as [H | (r & Hr & H)].
    + rewrite H. reflexivity.
    + destruct (negb (truthy data)); [reflexivity |].
      change (renderer_key "playlist") with "playlistRenderer" in Hr.
      rewrite Hr. cbn [bind]. rewrite H. reflexivity.
  - apply carries_object in H as (Hd & r & Hr & H).
    change (renderer_key "playlist") with "playlistRenderer" in Hr.
    rewrite Hd, Hr. cbn [negb bind]. rewrite H. cbn [negb]. only_extractor.
Qed.


Lemma outcome_cases {A : Type} (r : result A) :
  only_TypeError r -> (exists a, r = Ok a) \/ r = Throw TypeError.
Proof.
  intros H. destruct r as [a | e]; [eauto |]. right. rewrite (H e eq_refl). reflexivity.
Qed.

(** X6.  Each extractor throws its own "Failed to Parse YouTube ..." error
    exactly on the entries that do not carry its renderer (an entry that is
    [undefined], [null] or not an object among them); on an entry that does
    carry it, the extractor either returns or throws the runtime's
    [TypeError], never anything else. *)
Theorem extractor_outcomes :
  forall data,
    (carries "video" data = false -> parseVideo data = Throw Failed_Video) /\
    (carries "video" data = true ->
     (exists v, parseVideo data = Ok v) \/ parseVideo data = Throw TypeError) /\
    (carries "channel" data = false -> parseChannel data = Throw Failed_Channel) /\
    (carries "channel" data = true ->
     (exists c, parseChannel data = Ok c) \/ parseChannel data = Throw TypeError) /\
    (carries "playlist" data = false -> parsePlaylist data = Throw Failed_Playlist) /\
    (carries "playlist" data = true ->
     (exists p, parsePlaylist data = Ok p) \/ parsePlaylist data = Throw TypeError).
Proof.
  intros data.
  destruct (parseVideo_outcome data) as [Hv Hv'].
  destruct (parseChannel_outcome data) as [Hc Hc'].
  destruct (parsePlaylist_outcome data) as [Hp Hp'].
  repeat apply conj; try assumption; intros H; apply outcome_cases; auto.
Qed.

Lemma parse_detail_throws (t : string) (d : value) (e : error) :
  parse_detail t d = Throw e ->
  e = TypeError \/ (known_type t /\ e = Failed t) \/ (~ known_type t /\ e = Unknown_type t).
Proof.
  unfold parse_detail, Failed, known_type. intros H.
  destruct (String.eqb t "video") eqn:E1.
  - apply String.eqb_eq in E1. subst t.
    destruct (parseVideo_outcome d) as [Hf Ht].
    destruct (carries "video" d).
    + left. destruct (parseVideo d) as [v | e'] eqn:E; [discriminate H |].
      injection H as <-. apply (Ht eq_refl). reflexivity.
    + rewrite (Hf eq_refl) in H. injection H as <-. right. left. auto.
  - destruct (String.eqb t "channel") eqn:E2.
    + apply String.eqb_eq in E2. subst t.
      destruct (parseChannel_outcome d) as [Hf Ht].
      destruct (carries "channel" d).
      * left. destruct (parseChannel d) as [v | e'] eqn:E; [discriminate H |].
        injection H as <-. apply (Ht eq_refl). reflexivity.
      * rewrite (Hf eq_refl) in H. injection H as <-. right. left. auto.
    + destruct (String.eqb t "playlist") eqn:E3.
      * apply String.eqb_eq in E3. subst t.
        destruct (parsePlaylist_outcome d) as [Hf Ht].
        destruct (carries "playlist" d).
        -- left. destruct (parsePlaylist d) as [v | e'] eqn:E; [discriminate H |].
           injection H as <-. apply (Ht eq_refl). reflexivity.
        -- rewrite (Hf eq_refl) in H. injection H as <-. right. left. auto.
      * injection H as <-. right. right. split; [| reflexivity].
        apply String.eqb_neq in E1, E2, E3. intros [-> | [-> | ->]]; congruence.
Qed.

Lemma no_renderer_throws (d : value) : only_TypeError (no_renderer d).
Proof.
  unfold no_renderer. only_steps.
Qed.

Lemma walk_throws (t : string) (lim : option number) :
  forall details acc e,
    walk t lim details acc = Throw e -> search_error t e.
Proof.
  unfold search_error.
  induction details as [| d l IH]; intros acc e H; cbn [walk] in H; [discriminate |].
  destruct (hasLimit lim && limit_reached acc lim); [discriminate |].
  destruct (no_renderer d) as [skip | e'] eqn:Hd; cbn [bind] in H.
  - destruct skip; [exact (IH _ _ H) |].
    destruct (parse_detail t d) as [y | e'] eqn:Hy; cbn [bind] in H; [exact (IH _ _ H) |].
    injection H as <-.
    destruct (parse_detail_throws _ _ _ Hy) as [-> | [H | H]]; auto.
  - injection H as <-. rewrite (no_renderer_throws d e' Hd). auto.
Qed.

Lemma search_details_throws JSON_parse html (e : error) :
  search_details JSON_parse html = Throw e ->
  e = No_data \/ e = SyntaxError \/ e = TypeError.
Proof.
  unfold search_details. intros H.
  destruct (String.eqb html ""); [injection H as <-; auto |].
  destruct (embedded_data html) as [data |]; [| injection H as <-; auto].
  destruct (JSON_parse data) as [json_data |]; [| injection H as <-; auto].
  right. right. revert e H.
  change (only_TypeError
            (contents <- get json_data "contents" ;;
             two <- get contents "twoColumnSearchResultsRenderer" ;;
             primary <- get two "primaryContents" ;;
             section <- get primary "sectionListRenderer" ;;
             sections <- get section "contents" ;;
             first <- item sections (Num 0) ;;
             items <- get first "itemSectionRenderer" ;;
             get items "contents")).
  only_steps.
Qed.

(** X19.  The errors a search can end with: "Can't parse Search result
    without data", a [SyntaxError], a [TypeError], for one of the three
    types the error of its extractor, and for any other type "Unknown
    search type: ..." with the type asked for. *)
Theorem search_errors :
  forall JSON_parse html options e,
    ParseSearchResult JSON_parse html options = Throw e ->
    search_error (requested_type options) e.
Proof.
  intros JSON_parse html options e H. unfold ParseSearchResult in H.
  destruct (search_details JSON_parse html) as [details | e'] eqn:Hd; cbn [bind] in H.
  - destruct (iterate details) as [entries | e''] eqn:He; cbn [bind] in H.
    + exact (walk_throws _ _ _ _ _ H).
    + injection H as <-. unfold search_error.
      destruct details; cbn in He; try discriminate; injection He as <-; auto.
  - injection H as <-. unfold search_error.
    destruct (search_details_throws _ _ _ Hd) as [-> | [-> | ->]]; auto.
Qed.

(** X7.  A channel card and a playlist card need a thumbnail: when the
    thumbnails list is empty the index [length - 1] finds nothing and the
    extractor throws a [TypeError]. *)
Theorem empty_thumbnails_throw :
  (forall data,
     carries "channel" data = true ->
     read (read (read data "channelRenderer") "thumbnail") "thumbnails" = VArray [] ->
     parseChannel data = Throw TypeError) /\
  (forall data,
     carries "playlist" data = true ->
     read (first_of (read (read data "playlistRenderer") "thumbnails")) "thumbnails"
     = VArray [] ->
     parsePlaylist data = Throw TypeError).
Proof.
  split; intros data Hc Hl.
  - destruct (outcome_cases _ (proj2 (parseChannel_outcome data) Hc)) as [[c H] | H];
      [| exact H].
    destruct (parseChannel_icon data c [] H Hl) as [Hne _]. contradiction.
  - destruct (outcome_cases _ (proj2 (parsePlaylist_outcome data) Hc)) as [[p H] | H];
      [| exact H].
    destruct (parsePlaylist_thumbnail data p [] H Hl) as [Hne _]. contradiction.
Qed.

(** A channel card given to the video extractor, and the sample video. *)
Lemma extractor_outcomes_witness :
  parseVideo Samples.channel_entry = Throw Failed_Video /\
  ((exists v, parseVideo Samples.video_entry = Ok v) \/
   parseVideo Samples.video_entry = Throw TypeError).
Proof.
  split.
  - exact (proj1 (extractor_outcomes Samples.channel_entry) eq_refl).
  - exact (proj1 (proj2 (extractor_outcomes Samples.video_entry)) eq_refl).
Defined.

(** A search of type [all] that meets a video card. *)
Lemma search_errors_witness :
  search_error "all" (Unknown_type "all").
Proof.
  exact (search_errors (Samples.parse_as [Samples.video_entry]) Samples.html
           (Samples.options "all" 0) (Unknown_type "all") eq_refl).
Defined.

(** A channel card whose thumbnails list is empty. *)
Lemma empty_thumbnails_throw_witness :
  parseChannel
    (VObject [("channelRenderer",
               VObject [("channelId", VString "UC2");
                        ("title", VObject [("simpleText", VString "Nobody")]);
                        ("navigationEndpoint", Samples.endpoint "UC2" "/c");
                        ("thumbnail", VObject [("thumbnails", VArray [])])])])
  = Throw TypeError.
Proof.
  apply (proj1 empty_thumbnails_throw); reflexivity.
Defined.

End ErrorFacts.

(** ** parser.ts: the fields of the entities *)

Module FieldFacts.
Import JS Parser Words JSFacts ParserFacts Fields.
Local Open Scope js_scope.

Lemma read_nullish (v : value) (k : string) : nullish v = true -> read v k = VUndefined.
Proof.
  destruct v; try discriminate; reflexivity.
Qed.

Lemma first_of_nullish (v : value) : nullish v = true -> first_of v = VUndefined.
Proof.
  destruct v; try discriminate; reflexivity.
Qed.

Lemma optional_cases (v b : value) (k : value -> result value) :
  optional v k = Ok b ->
  (nullish v = true /\ b = VUndefined) \/ (nullish v = false /\ k v = Ok b).
Proof.
  unfold optional. destruct (nullish v); intros H; [left | right]; split; congruence.
Qed.

Lemma optional_get (v b : value) (k : string) :
  optional v (fun v => get v k) = Ok b -> b = read v k.
Proof.
  intros H. apply optional_cases in H as [[Hn ->] | [_ H]].
  - symmetry. apply read_nullish. exact Hn.
  - symmetry. apply get_read. exact H.
Qed.

Lemma optional_chain3 (v x : value) (k1 k2 k3 : string) :
  optional v (fun v => a <- get v k1 ;; b <- get a k2 ;; get b k3) = Ok x ->
  x = read (read (read v k1) k2) k3.
Proof.
  intros H. apply optional_cases in H as [[Hn ->] | [_ H]].
  - rewrite (read_nullish _ _ Hn). reflexivity.
  - apply bind_ok in H as (a & Ea & H). apply bind_ok in H as (b & Eb & H).
    rewrite (get_read _ _ _ Ea), (get_read _ _ _ Eb), (get_read _ _ _ H). reflexivity.
Qed.

Lemma optional_chain4 (v x : value) (k1 k2 k3 k4 : string) :
  optional v (fun v => a <- get v k1 ;; b <- get a k2 ;; c <- get b k3 ;; get c k4) = Ok x ->
  x = read (read (read (read v k1) k2) k3) k4.
Proof.
  intros H. apply optional_cases in H as [[Hn ->] | [_ H]].
  - rewrite (read_nullish _ _ Hn). reflexivity.
  - apply bind_ok in H as (a & Ea & H). apply bind_ok in H as (b & Eb & H).
    apply bind_ok in H as (c & Ec & H).
    rewrite (get_read _ _ _ Ea), (get_read _ _ _ Eb), (get_read _ _ _ Ec),
      (get_read _ _ _ H).
    reflexivity.
Qed.

Lemma badge_of_style (renderer b : value) :
  badge_of renderer = Ok b ->
  (nullish (badge_style renderer) = true -> b = VUndefined) /\
  (forall s, badge_style renderer = VString s -> b = VString (toLowerCase s)).
Proof.
  unfold badge_of, badge_style. intros H.
  apply bind_ok in H as (badges & Eb & H). rewrite (get_read _ _ _ Eb).
  apply optional_cases in H as [[Hn ->] | [_ H]].
  - rewrite (first_of_nullish _ Hn). split; [reflexivity | discriminate].
  - apply bind_ok in H as (first & Ef & H). rewrite (item_first _ _ Ef).
    apply optional_cases in H as [[Hn ->] | [_ H]].
    + rewrite (read_nullish _ _ Hn). split; [reflexivity | discriminate].
    + apply bind_ok in H as (meta & Em & H). rewrite (get_read _ _ _ Em).
      apply optional_cases in H as [[Hn ->] | [_ H]].
      * rewrite (read_nullish _ _ Hn). split; [reflexivity | discriminate].
      * apply bind_ok in H as (style & Es & H). rewrite (get_read _ _ _ Es).
        apply optional_cases in H as [[Hn ->] | [Hn H]].
        -- split; [reflexivity |]. intros s ->. discriminate Hn.
        -- apply bind_ok in H as (s & Hs & H). apply as_string_ok in Hs. subst style.
           injection H as <-. split; [discriminate |]. intros s' E. congruence.
Qed.

Lemma badge_flag (renderer b : value) (word : string) (flag : bool) :
  badge_of renderer = Ok b ->
  badge_has b word = Ok flag ->
  (nullish (badge_style renderer) = true -> flag = false) /\
  (forall s, badge_style renderer = VString s -> flag = includes word (toLowerCase s)).
Proof.
  intros Hb Hf. apply badge_of_style in Hb as [Hnone Hsome]. split.
  - intros Hn. rewrite (Hnone Hn) in Hf. cbn in Hf. congruence.
  - intros s Hs. rewrite (Hsome s Hs) in Hf. cbn in Hf. congruence.
Qed.

Lemma canonical_url_path (owner : value) (url : string) :
  canonical_url owner = Ok url ->
  (truthy (canonical_base owner) = true ->
   url = origin ++ to_string (canonical_base owner)) /\
  (truthy (canonical_base owner) = false ->
   url = origin ++ to_string (command_url owner)).
Proof.
  unfold canonical_url, canonical_base, command_url, origin. intros H.
  apply bind_ok in H as (nav & En & H). apply bind_ok in H as (browse & Eb & H).
  apply bind_ok in H as (base & Ec & H). apply bind_ok in H as (path & Ep & H).
  rewrite (get_read _ _ _ En), (get_read _ _ _ Eb), (get_read _ _ _ Ec).
  injection H as <-. destruct (truthy base).
  - injection Ep as <-. split; [reflexivity | discriminate].
  - apply bind_ok in Ep as (cmd & E1 & Ep). apply bind_ok in Ep as (web & E2 & Ep).
    rewrite (get_read _ _ _ E1), (get_read _ _ _ E2), (get_read _ _ _ Ep).
    split; [discriminate | reflexivity].
Qed.

(** What [parseChannel] makes of the badge, the endpoint and the subscriber
    count of the entry it accepts. *)
Lemma parseChannel_fields (data : value) (c : YouTubeChannel) :
  parseChannel data = Ok c ->
  (exists b,
     badge_of (read data "channelRenderer") = Ok b /\
     badge_has b "verified" = Ok (channel_verified c) /\
     badge_has b "artist" = Ok (channel_artist c)) /\
  canonical_url (read data "channelRenderer") = Ok (channel_url c) /\
  channel_subscribers c =
  coalesce (read (read (read data "channelRenderer") "subscriberCountText") "simpleText")
    (VString "0 subscribers") /\
  channel_id c = read (read data "channelRenderer") "channelId" /\
  channel_name c = read (read (read data "channelRenderer") "title") "simpleText".
Proof.
  intros H. unfold parseChannel in H. invert_ok H. injection H as <-.
  cbn [channel_verified channel_artist channel_url channel_subscribers channel_id
       channel_name].
  match goal with
  | [ E : optional _ _ = Ok _ |- _ ] => apply optional_get in E
  end.
  repeat match goal with
         | [ E : get ?v _ = Ok _ |- _ ] =>
             lazymatch v with
             | data => apply get_read in E; subst
             | read _ _ => apply get_read in E; subst
             end
         end.
  split; [eexists; repeat split; eassumption |].
  split; [assumption |]. subst. repeat split.
Qed.


(** What [parseVideo] makes of the badge, the owner, the id and the
    publication time of the entry it accepts. *)
Lemma parseVideo_owner (data : value) (v : YouTubeVideo) :
  parseVideo data = Ok v ->
  (exists b,
     badge_of (read data "videoRenderer") = Ok b /\
     badge_has b "verified" = Ok (owner_verified (video_channel v)) /\
     badge_has b "artist" = Ok (owner_artist (video_channel v))) /\
  canonical_url (video_owner data) = Ok (owner_url (video_channel v)) /\
  owner_name (video_channel v) = or_else (read (video_owner data) "text") VNull /\
  video_id v = read (read data "videoRenderer") "videoId" /\
  video_url v = origin ++ "/watch?v=" ++ to_string (video_id v) /\
  video_uploadedAt v =
  coalesce (read (read (read data "videoRenderer") "publishedTimeText") "simpleText") VNull.
Proof.
  intros H. unfold parseVideo in H. invert_ok H. injection H as <-.
  cbn [video_channel owner_verified owner_artist owner_url owner_name video_id video_url
       video_uploadedAt].
  match goal with
  | [ E : optional _ (fun _ => get _ _) = Ok _ |- _ ] => apply optional_get in E
  end.
  unfold video_owner.
  match goal with
  | [ E : get data _ = Ok _ |- _ ] => apply get_read in E; subst
  end.
  match goal with
  | [ E : get (read data _) "ownerText" = Ok _ |- _ ] => apply get_read in E; subst
  end.
  match goal with
  | [ E : get (read (read data _) _) "runs" = Ok _ |- _ ] => apply get_read in E; subst
  end.
  match goal with
  | [ E : item (read (read (read data _) _) _) (Num 0) = Ok _ |- _ ] =>
      apply item_first in E; subst
  end.
  repeat match goal with
         | [ E : get ?v ?k = Ok _ |- _ ] =>
             lazymatch k with
             | "videoId" => apply get_read in E; subst
             | "publishedTimeText" => apply get_read in E; subst
             | "text" => apply get_read in E; subst
             end
         end.
  split; [eexists; repeat split; eassumption |].
  split; [assumption |]. subst. repeat split.
Qed.

Lemma keep_digits_radix (s : string) : all_in_radix 10 (keep_digits s) = true.
Proof.
  induction s as [| c s IH]; [reflexivity |].
  cbn [keep_digits]. destruct (is_digit c) eqn:E; [| exact IH].
  cbn [all_in_radix]. unfold is_digit in E. unfold digit_val. rewrite E.
  apply andb_true_iff in E as [E1 E2]. apply Z.leb_le in E1, E2.
  replace (code c - 48 <? 10) with true by (symmetry; apply Z.ltb_lt; lia).
  exact IH.
Qed.

Lemma parseInt_keep_digits (s : string) :
  (keep_digits s = "" -> parseInt (keep_digits s) = NaN) /\
  (keep_digits s <> "" -> parseInt (keep_digits s) = to_double (decimal (keep_digits s))).
Proof.
  split; intros H.
  - rewrite H. reflexivity.
  - apply parseInt_numeral. unfold is_numeral. rewrite keep_digits_radix.
    apply String.eqb_neq in H. rewrite H. reflexivity.
Qed.

(** What [parsePlaylist] makes of the byline and the video count of the
    entry it accepts. *)
Lemma parsePlaylist_fields (data : value) (p : YouTubePlayList) :
  parsePlaylist data = Ok p ->
  pchannel_url (playlist_channel p) = origin ++ to_string (command_url (playlist_owner data)) /\
  pchannel_name (playlist_channel p) = read (playlist_owner data) "text" /\
  pchannel_id (playlist_channel p) =
  read (read (read (playlist_owner data) "navigationEndpoint") "browseEndpoint") "browseId" /\
  (exists s,
     read (read data "playlistRenderer") "videoCount" = VString s /\
     playlist_videos p = parseInt (keep_digits s)) /\
  pthumb_id (playlist_thumbnail p) = playlist_id p.
Proof.
  intros H. unfold parsePlaylist in H. invert_ok H. injection H as <-.
  cbn [playlist_channel pchannel_url pchannel_name pchannel_id playlist_videos
       playlist_thumbnail pthumb_id playlist_id].
  unfold playlist_owner, command_url.
  match goal with
  | [ E : as_string _ = Ok _ |- _ ] => apply as_string_ok in E; subst
  end.
  match goal with
  | [ E : get data _ = Ok _ |- _ ] => apply get_read in E; subst
  end.
  match goal with
  | [ E : get (read data _) "shortBylineText" = Ok _ |- _ ] => apply get_read in E; subst
  end.
  match goal with
  | [ E : get (read (read data _) _) "runs" = Ok _ |- _ ] => apply get_read in E; subst
  end.
  match goal with
  | [ E : get _ "videoCount" = Ok _ |- _ ] => apply get_read in E
  end.
  match goal with
  | [ E : optional ?runs (fun _ => item _ _) = Ok ?channel |- _ ] =>
      assert (Hch : channel = first_of runs);
      [ apply optional_cases in E as [[Hn ->] | [_ E]];
        [ symmetry; apply first_of_nullish; exact Hn
        | symmetry; apply item_first; exact E ]
      | clear E; subst channel ]
  end.
  match goal with
  | [ E : optional _ (fun _ => get _ "text") = Ok _ |- _ ] => apply optional_get in E; subst
  end.
  match goal with
  | [ E : optional _ (fun _ => bind (get _ "navigationEndpoint")
                                 (fun _ => bind (get _ "browseEndpoint") _)) = Ok _ |- _ ] =>
      apply optional_chain3 in E; subst
  end.
  match goal with
  | [ E : optional _ (fun _ => bind (get _ "navigationEndpoint")
                                 (fun _ => bind (get _ "commandMetadata") _)) = Ok _ |- _ ] =>
      apply optional_chain4 in E; subst
  end.
  split; [reflexivity |]. split; [reflexivity |]. split; [reflexivity |].
  split; [eexists; split; [eassumption | reflexivity] | reflexivity].
Qed.


(** X8.  The flags [verified] and [artist] of a channel, and of the owner
    of a video, say whether the style of the first owner badge, in lower
    case, contains the word; with no badge, or a badge without a style,
    both are false. *)
Theorem badge_flags :
  (forall data c,
     parseChannel data = Ok c ->
     (nullish (badge_style (read data "channelRenderer")) = true ->
      channel_verified c = false /\ channel_artist c = false) /\
     (forall s,
        badge_style (read data "channelRenderer") = VString s ->
        channel_verified c = includes "verified" (toLowerCase s) /\
        channel_artist c = includes "artist" (toLowerCase s))) /\
  (forall data v,
     parseVideo data = Ok v ->
     (nullish (badge_style (read data "videoRenderer")) = true ->
      owner_verified (video_channel v) = false /\ owner_artist (video_channel v) = false) /\
     (forall s,
        badge_style (read data "videoRenderer") = VString s ->
        owner_verified (video_channel v) = includes "verified" (toLowerCase s) /\
        owner_artist (video_channel v) = includes "artist" (toLowerCase s))).
Proof.
  split.
  - intros data c H.
    destruct (parseChannel_fields data c H) as ((b & Hb & Hv & Ha) & _).
    destruct (badge_flag _ _ _ _ Hb Hv) as [Hv0 Hv1].
    destruct (badge_flag _ _ _ _ Hb Ha) as [Ha0 Ha1].
    split; [intros Hn | intros s Hs]; split; auto.
  - intros data v H.
    destruct (parseVideo_owner data v H) as ((b & Hb & Hv & Ha) & _).
    destruct (badge_flag _ _ _ _ Hb Hv) as [Hv0 Hv1].
    destruct (badge_flag _ _ _ _ Hb Ha) as [Ha0 Ha1].
    split; [intros Hn | intros s Hs]; split; auto.
Qed.

(** The sample video has a verified owner; the sample channel has no badge. *)
Lemma badge_flags_witness :
  (exists v,
     parseVideo Samples.video_entry = Ok v /\
     owner_verified (video_channel v) = true /\ owner_artist (video_channel v) = false) /\
  (exists c,
     parseChannel Samples.channel_entry = Ok c /\
     channel_verified c = false /\ channel_artist c = false).
Proof.
  split.
  - eexists. split; [reflexivity |].
    exact (proj2 (proj2 badge_flags Samples.video_entry _ eq_refl)
             "BADGE_STYLE_TYPE_VERIFIED" eq_refl).
  - eexists. split; [reflexivity |].
    exact (proj1 (proj1 badge_flags Samples.channel_entry _ eq_refl) eq_refl).
Defined.

(** X9.  The URL of a channel, and of the owner of a video, is the origin
    [https://www.youtube.com] followed by the canonical base URL of its
    endpoint when that is there (truthy), and by the URL of its command
    metadata otherwise; the URL of a video is the origin followed by
    [/watch?v=] and its id. *)
Theorem canonical_urls :
  (forall data c,
     parseChannel data = Ok c ->
     (truthy (canonical_base (read data "channelRenderer")) = true ->
      channel_url c = origin ++ to_string (canonical_base (read data "channelRenderer"))) /\
     (truthy (canonical_base (read data "channelRenderer")) = false ->
      channel_url c = origin ++ to_string (command_url (read data "channelRenderer")))) /\
  (forall data v,
     parseVideo data = Ok v ->
     (truthy (canonical_base (video_owner data)) = true ->
      owner_url (video_channel v) = origin ++ to_string (canonical_base (video_owner data))) /\
     (truthy (canonical_base (video_owner data)) = false ->
      owner_url (video_channel v) = origin ++ to_string (command_url (video_owner data))) /\
     video_url v = origin ++ "/watch?v=" ++ to_string (read (read data "videoRenderer") "videoId")).
Proof.
  split.
  - intros data c H.
    destruct (parseChannel_fields data c H) as (_ & Hurl & _).
    exact (canonical_url_path _ _ Hurl).
  - intros data v H.
    destruct (parseVideo_owner data v H) as (_ & Hurl & _ & Hid & Hv & _).
    destruct (canonical_url_path _ _ Hurl) as [H1 H2].
    split; [exact H1 |]. split; [exact H2 |]. rewrite Hv, Hid. reflexivity.
Qed.

(** A channel with a canonical base URL and one with none. *)
Lemma canonical_urls_witness :
  (exists c,
     parseChannel Samples.channel_entry = Ok c /\
     channel_url c = "https://www.youtube.com/@artist") /\
  (exists c,
     parseChannel MoreSamples.plain_channel_entry = Ok c /\
     channel_url c = "https://www.youtube.com/channel/UC3").
Proof.
  split.
  - eexists. split; [reflexivity |].
    exact (proj1 (proj1 canonical_urls Samples.channel_entry _ eq_refl) eq_refl).
  - eexists. split; [reflexivity |].
    exact (proj2 (proj1 canonical_urls MoreSamples.plain_channel_entry _ eq_refl) eq_refl).
Defined.

(** X20.  The channel of a playlist is read from the first run of its
    byline: its URL is the origin followed by the URL of the run's command
    metadata (the canonical base URL is not looked at), its name the text
    and its id the browse id.  A byline without runs does not fail the
    extraction: the id and the name are [undefined] and the URL is the
    origin followed by the word [undefined]. *)
Theorem playlist_channel_fields :
  forall data p,
    parsePlaylist data = Ok p ->
    pchannel_url (playlist_channel p) =
      origin ++ to_string (command_url (playlist_owner data)) /\
    pchannel_name (playlist_channel p) = read (playlist_owner data) "text" /\
    pchannel_id (playlist_channel p) =
      read (read (read (playlist_owner data) "navigationEndpoint") "browseEndpoint")
        "browseId" /\
    (nullish (playlist_owner data) = true ->
     pchannel_url (playlist_channel p) = "https://www.youtube.comundefined" /\
     pchannel_name (playlist_channel p) = VUndefined /\
     pchannel_id (playlist_channel p) = VUndefined).
Proof.
  intros data p H.
  destruct (parsePlaylist_fields data p H) as (Hurl & Hname & Hid & _).
  split; [exact Hurl |]. split; [exact Hname |]. split; [exact Hid |].
  intros Hn. rewrite Hurl, Hname, Hid. unfold command_url.
  rewrite !(read_nullish _ _ Hn). repeat split.
Qed.

(** A playlist card whose byline has no runs. *)
Lemma playlist_channel_fields_witness :
  exists p,
    parsePlaylist MoreSamples.anonymous_playlist_entry = Ok p /\
    pchannel_url (playlist_channel p) = "https://www.youtube.comundefined".
Proof.
  eexists. split; [reflexivity |].
  exact (proj1 (proj2 (proj2 (proj2
           (playlist_channel_fields MoreSamples.anonymous_playlist_entry _ eq_refl)))
           eq_refl)).
Defined.

(** X10.  The video count of a playlist that is extracted is a text; its
    digits, read as one decimal numeral, are the count, which is never
    negative: the count is the double nearest to the numeral, and the
    numeral itself when it fits 53 bits.  A text without a digit does not
    fail the extraction: the count is NaN. *)
Theorem playlist_video_count :
  forall data p,
    parsePlaylist data = Ok p ->
    exists s,
      read (read data "playlistRenderer") "videoCount" = VString s /\
      (keep_digits s = "" -> playlist_videos p = NaN) /\
      (keep_digits s <> "" ->
       playlist_videos p = to_double (decimal (keep_digits s)) /\
       0 <= decimal (keep_digits s) /\
       (decimal (keep_digits s) <= 2 ^ 53 ->
        playlist_videos p = Num (decimal (keep_digits s)))).
Proof.
  intros data p H.
  destruct (parsePlaylist_fields data p H) as (_ & _ & _ & (s & Hs & Hv) & _).
  exists s. split; [exact Hs |]. rewrite Hv.
  destruct (parseInt_keep_digits s) as [H0 H1].
  split; [exact H0 |]. intros Hne.
  pose proof (decimal_nonnegative _ (keep_digits_radix s)) as Hpos.
  split; [exact (H1 Hne) |]. split; [exact Hpos |].
  intros Hb. rewrite (H1 Hne). apply to_double_exact. lia.
Qed.

(** "12 videos" and "No videos". *)
Lemma playlist_video_count_witness :
  (exists p, parsePlaylist Samples.playlist_entry = Ok p /\ playlist_videos p = Num 12) /\
  (exists p,
     parsePlaylist MoreSamples.anonymous_playlist_entry = Ok p /\ playlist_videos p = NaN).
Proof.
  split.
  - eexists. split; [reflexivity |].
    destruct (playlist_video_count Samples.playlist_entry _ eq_refl) as (s & Hs & _ & H).
    injection Hs as <-.
    apply (proj2 (proj2 (H ltac:(discriminate)))). vm_compute. discriminate.
  - eexists. split; [reflexivity |].
    destruct (playlist_video_count MoreSamples.anonymous_playlist_entry _ eq_refl)
      as (s & Hs & H & _).
    injection Hs as <-. apply H. reflexivity.
Defined.

(** X11.  Fields the page may leave out.  The subscriber count of a
    channel is the text of the card, and "0 subscribers" when the card has
    none; the publication time of a video is the text of the card, and
    [null] when the card has none; the name of the owner of a video is the
    text of its run, and [null] when that is missing or empty. *)
Theorem optional_fields :
  (forall data c,
     parseChannel data = Ok c ->
     (nullish (read (read (read data "channelRenderer") "subscriberCountText")
                 "simpleText") = true ->
      channel_subscribers c = VString "0 subscribers") /\
     (nullish (read (read (read data "channelRenderer") "subscriberCountText")
                 "simpleText") = false ->
      channel_subscribers c =
      read (read (read data "channelRenderer") "subscriberCountText") "simpleText")) /\
  (forall data v,
     parseVideo data = Ok v ->
     (nullish (read (read (read data "videoRenderer") "publishedTimeText")
                 "simpleText") = true ->
      video_uploadedAt v = VNull) /\
     (nullish (read (read (read data "videoRenderer") "publishedTimeText")
                 "simpleText") = false ->
      video_uploadedAt v =
      read (read (read data "videoRenderer") "publishedTimeText") "simpleText") /\
     (truthy (read (video_owner data) "text") = false ->
      owner_name (video_channel v) = VNull) /\
     (truthy (read (video_owner data) "text") = true ->
      owner_name (video_channel v) = read (video_owner data) "text")).
Proof.
  split.
  - intros data c H.
    destruct (parseChannel_fields data c H) as (_ & _ & Hsubs & _).
    rewrite Hsubs. unfold coalesce. split; intros ->; reflexivity.
  - intros data v H.
    destruct (parseVideo_owner data v H) as (_ & _ & Hname & _ & _ & Hup).
    rewrite Hname, Hup. unfold coalesce, or_else.
    split; [intros ->; reflexivity |]. split; [intros ->; reflexivity |].
    split; intros ->; reflexivity.
Qed.

(** A channel card without a subscriber count. *)
Lemma optional_fields_witness :
  exists c,
    parseChannel MoreSamples.plain_channel_entry = Ok c /\
    channel_subscribers c = VString "0 subscribers".
Proof.
  eexists. split; [reflexivity |].
  exact (proj1 (proj1 optional_fields MoreSamples.plain_channel_entry _ eq_refl) eq_refl).
Defined.

(** X12.  A duration text of more than three parts is read as its first
    part alone: after three numerals, whatever follows the third colon,
    the duration is the first numeral, taken as seconds: the double
    nearest to it, and the numeral itself when it fits 53 bits. *)
Theorem duration_extra_parts :
  forall a b c rest,
    is_numeral a = true -> is_numeral b = true -> is_numeral c = true ->
    parseDuration (VString (a ++ ":" ++ b ++ ":" ++ c ++ ":" ++ rest)) =
    Ok (to_double (decimal a)) /\
    (decimal a <= 2 ^ 53 ->
     parseDuration (VString (a ++ ":" ++ b ++ ":" ++ c ++ ":" ++ rest)) =
     Ok (Num (decimal a))).
Proof.
  intros a b c rest Ha Hb Hc.
  assert (E : parseDuration (VString (a ++ ":" ++ b ++ ":" ++ c ++ ":" ++ rest)) =
              Ok (to_double (decimal a))).
  { unfold parseDuration.
    cbn [append]. rewrite truthy_piece. cbn [negb as_string bind]. unfold split.
    rewrite split_numeral_piece by (apply numeral_digits; exact Ha).
    rewrite split_numeral_piece by (apply numeral_digits; exact Hb).
    rewrite split_numeral_piece by (apply numeral_digits; exact Hc).
    destruct (FramingFacts.split_aux_cons ":" rest EmptyString) as (p & ps & E).
    rewrite E.
    cbn [rev_string list_ascii_of_string rev string_of_list_ascii append].
    rewrite (parseInt_numeral _ Ha). reflexivity. }
  split; [exact E |].
  intros Hbound. rewrite E. pose proof (numeral_nonnegative _ Ha).
  rewrite to_double_exact by lia. reflexivity.
Qed.

(** A text of four parts. *)
Lemma duration_extra_parts_witness :
  parseDuration (VString "1:02:03:04") = Ok (Num 1).
Proof.
  apply (proj2 (duration_extra_parts "1" "02" "03" "04" eq_refl eq_refl eq_refl)).
  vm_compute. discriminate.
Defined.

End FieldFacts.

(** ** The SoundCloud module: streams and probes *)

Module StreamFacts.
Import JS Regex SoundCloud SoundCloudFacts.
Local Open Scope async_scope.

Lemma last_item (l : list value) :
  item (VArray l) (num_sub (to_number (VNumber (Num (Z.of_nat (List.length l))))) (Num 1))
  = Ok (last l VUndefined).
Proof.
  pose proof (ParserFacts.last_of_array l) as H. unfold Parser.last_of in H.
  cbn [get bind String.eqb Ascii.eqb Bool.eqb] in H. exact H.
Qed.

(** X13.  The stream of a track comes from the last format of its list:
    with a credential, one request goes to the URL of that format followed
    by [?client_id=] and the client id, and the stream has the URL of the
    answer and the type Ogg/Opus exactly when the MIME type of that format
    starts with [audio/ogg].  A track with no format fails with a
    [TypeError] before any request. *)
Theorem stream_last_format :
  forall soundData request JSON_parse formats_of data log,
    (forall formats format furl client_id body s_data mime,
       formats_of data = VArray (formats ++ [format])%list ->
       get format "url" = Ok furl ->
       get soundData "client_id" = Ok client_id ->
       request (to_string furl ++ "?client_id=" ++ to_string client_id) = Ok body ->
       JSON_parse body = Some s_data ->
       nullish s_data = false ->
       Words.read (Words.read format "format") "mime_type" = VString mime ->
       stream_from_info soundData request JSON_parse formats_of data log =
       (Ok (NewStream (Words.read s_data "url")
              (if starts_with "audio/ogg" mime then OggOpus else Arbitrary)),
        log ++ [Requested (to_string furl ++ "?client_id=" ++ to_string client_id);
                ConstructedStream
                  (NewStream (Words.read s_data "url")
                     (if starts_with "audio/ogg" mime then OggOpus else Arbitrary))])%list) /\
    (formats_of data = VArray [] ->
     stream_from_info soundData request JSON_parse formats_of data log =
     (Throw TypeError, log)).
Proof.
  intros soundData request JSON_parse formats_of data log. split.
  - intros formats format furl client_id body s_data mime Hf Hurl Hid Hreq Hparse Hs Hmime.
    unfold stream_from_info, stream_of_formats, fetch, parse, abind, pure, emit, ret.
    rewrite Hf. cbn [get String.eqb Ascii.eqb Bool.eqb]. rewrite last_item, last_last.
    rewrite Hurl, Hid, Hreq, Hparse.
    unfold Words.read in Hmime |- *.
    destruct (get format "format") as [fmt | e] eqn:Efmt; [| discriminate Hmime].
    destruct (get fmt "mime_type") as [m | e] eqn:Em; [| discriminate Hmime].
    subst m. cbn [as_string].
    destruct (get s_data "url") as [surl | e] eqn:Es;
      [| destruct s_data; discriminate].
    rewrite <- app_assoc. reflexivity.
  - intros Hf. unfold stream_from_info, stream_of_formats, abind, pure. rewrite Hf.
    reflexivity.
Qed.

(** X18.  What the resolver does besides returning, on every input: when it
    returns an entity it has sent one request and then constructed that
    entity and nothing else; when it throws it has constructed nothing and
    sent at most one request. *)
Theorem soundcloud_events :
  forall soundData request JSON_parse url log,
    match soundcloud soundData request JSON_parse url log with
    | (Ok entity, log') =>
        exists sent, log' = (log ++ [Requested sent; Constructed entity])%list
    | (Throw _, log') =>
        log' = log \/ exists sent, log' = (log ++ [Requested sent])%list
    end.
Proof.
  intros soundData request JSON_parse url log.
  unfold soundcloud, fetch, parse, construct, abind, pure, emit, ret, throw.
  destruct (negb (truthy soundData)); [left; reflexivity |].
  destruct (negb (matches pattern url)); [left; reflexivity |].
  destruct (get soundData "client_id") as [client_id | e]; [| left; reflexivity].
  destruct (request (resolve_url url client_id)) as [body | e]; [| right; eauto].
  destruct (JSON_parse body) as [json_data |]; [| right; eauto].
  destruct (get json_data "kind") as [kind | e]; [| right; eauto].
  destruct (negb (is_string kind "track") && negb (is_string kind "playlist"));
    [right; eauto |].
  destruct (is_string kind "track").
  - eexists. rewrite <- app_assoc. reflexivity.
  - eexists. rewrite <- app_assoc. reflexivity.
Qed.

Lemma truthy_get (v : value) (k : string) :
  truthy v = true -> exists x, get v k = Ok x.
Proof.
  destruct v; cbn; try discriminate; eauto.
Qed.

(** X16.  On a URL that passes validation, with a credential, the kind
    probe and the resolver agree: the probe answers [track] or [playlist]
    exactly when the resolver returns a track or a playlist, it answers
    [false] where the resolver throws "out of scope", and it throws what
    the resolver throws. *)
Theorem probe_agrees_with_resolver :
  forall soundData request JSON_parse url log,
    truthy soundData = true ->
    matches pattern url = true ->
    match fst (so_validate soundData request JSON_parse url log) with
    | Ok IsTrack =>
        exists json_data,
          fst (soundcloud soundData request JSON_parse url log)
          = Ok (Track (NewTrack json_data))
    | Ok IsPlaylist =>
        exists json_data client_id,
          fst (soundcloud soundData request JSON_parse url log)
          = Ok (Playlist (NewPlaylist json_data client_id))
    | Ok Invalid =>
        fst (soundcloud soundData request JSON_parse url log) = Throw Out_of_scope
    | Throw e => fst (soundcloud soundData request JSON_parse url log) = Throw e
    end.
Proof.
  intros soundData request JSON_parse url log Hdata Hurl.
  destruct (truthy_get soundData "client_id" Hdata) as [client_id Hid].
  unfold so_validate, soundcloud, fetch, parse, construct, abind, pure, emit, ret, throw.
  rewrite Hdata, Hurl, Hid. cbn [negb].
  destruct (request (resolve_url url client_id)) as [body | e]; [| reflexivity].
  destruct (JSON_parse body) as [json_data |]; [| reflexivity].
  destruct (get json_data "kind") as [kind | e]; [| reflexivity].
  destruct (is_string kind "track"); cbn [negb andb fst]; [eauto |].
  destruct (is_string kind "playlist"); cbn [negb andb fst]; [eauto | reflexivity].
Qed.

(** X17.  A failure of the resolve request is not caught: the kind probe,
    the resolver and the stream of a URL all throw the error of the
    request itself, after that one request and with nothing constructed. *)
Theorem network_failure_propagates :
  forall soundData request JSON_parse formats_of url log client_id e,
    get soundData "client_id" = Ok client_id ->
    request (resolve_url url client_id) = Throw e ->
    so_validate soundData request JSON_parse url log =
      (Throw e, log ++ [Requested (resolve_url url client_id)])%list /\
    (truthy soundData = true ->
     matches pattern url = true ->
     soundcloud soundData request JSON_parse url log =
       (Throw e, log ++ [Requested (resolve_url url client_id)])%list /\
     stream soundData request JSON_parse formats_of url log =
       (Throw e, log ++ [Requested (resolve_url url client_id)])%list).
Proof.
  intros soundData request JSON_parse formats_of url log client_id e Hid Hreq.
  split.
  - unfold so_validate, fetch, abind, pure, emit. rewrite Hid, Hreq. reflexivity.
  - intros Hdata Hurl.
    assert (H : soundcloud soundData request JSON_parse url log =
                (Throw e, log ++ [Requested (resolve_url url client_id)])%list).
    { unfold soundcloud, fetch, abind, pure, emit. rewrite Hdata, Hurl, Hid, Hreq.
      reflexivity. }
    split; [exact H |]. unfold stream, abind. rewrite H. reflexivity.
Qed.

(** X15.  The stream of a URL resolves it first.  For a playlist the
    playlist is requested and constructed and only then the call fails
    with "Streams can't be created from Playlist url", without a second
    request; for a track the call continues as [stream_from_info] on the
    track constructed. *)
Theorem stream_resolves_first :
  forall soundData request JSON_parse formats_of url log client_id body json_data,
    truthy soundData = true ->
    matches pattern url = true ->
    get soundData "client_id" = Ok client_id ->
    request (resolve_url url client_id) = Ok body ->
    JSON_parse body = Some json_data ->
    (get json_data "kind" = Ok (VString "playlist") ->
     stream soundData request JSON_parse formats_of url log =
     (Throw Playlist_stream,
      log ++ [Requested (resolve_url url client_id);
              Constructed (Playlist (NewPlaylist json_data client_id))])%list) /\
    (get json_data "kind" = Ok (VString "track") ->
     stream soundData request JSON_parse formats_of url log =
     stream_from_info soundData request JSON_parse formats_of (NewTrack json_data)
       (log ++ [Requested (resolve_url url client_id);
                Constructed (Track (NewTrack json_data))])%list).
Proof.
  intros soundData request JSON_parse formats_of url log client_id body json_data
    Hdata Hurl Hid Hreq Hparse.
  split; intros Hkind.
  - assert (H : soundcloud soundData request JSON_parse url log =
                (Ok (Playlist (NewPlaylist json_data client_id)),
                 log ++ [Requested (resolve_url url client_id);
                         Constructed (Playlist (NewPlaylist json_data client_id))])%list).
    { unfold soundcloud, fetch, parse, construct, abind, pure, emit, ret, throw.
      rewrite Hdata, Hurl, Hid, Hreq, Hparse, Hkind. cbn. rewrite <- app_assoc.
      reflexivity. }
    unfold stream, abind. rewrite H. reflexivity.
  - assert (H : soundcloud soundData request JSON_parse url log =
                (Ok (Track (NewTrack json_data)),
                 log ++ [Requested (resolve_url url client_id);
                         Constructed (Track (NewTrack json_data))])%list).
    { unfold soundcloud, fetch, parse, construct, abind, pure, emit, ret, throw.
      rewrite Hdata, Hurl, Hid, Hreq, Hparse, Hkind. cbn. rewrite <- app_assoc.
      reflexivity. }
    unfold stream, abind. rewrite H. reflexivity.
Qed.

(** X14.  The kind probe validates nothing itself: for every URL, also one
    the pattern of the resolver rejects, it sends the resolve request as
    soon as the client id can be read, and it sends no other. *)
Theorem probe_sends_for_any_url :
  forall soundData request JSON_parse url log client_id,
    get soundData "client_id" = Ok client_id ->
    snd (so_validate soundData request JSON_parse url log) =
    (log ++ [Requested (resolve_url url client_id)])%list.
Proof.
  intros soundData request JSON_parse url log client_id Hid.
  unfold so_validate, fetch, parse, abind, pure, emit, ret, throw. rewrite Hid.
  destruct (request (resolve_url url client_id)) as [body | e]; [| reflexivity].
  destruct (JSON_parse body) as [json_data |]; [| reflexivity].
  destruct (get json_data "kind") as [kind | e]; [| reflexivity].
  destruct (is_string kind "track"); [reflexivity |].
  destruct (is_string kind "playlist"); reflexivity.
Qed.

(** A URL of another site is probed all the same. *)
Lemma probe_sends_for_any_url_witness :
  snd (so_validate (VObject [("client_id", VString "abc")]) (fun _ => Ok "user")
         (fun _ => Some (VObject [("kind", VString "user")])) "https://example.com" []) =
  [Requested "https://api-v2.soundcloud.com/resolve?url=https://example.com&client_id=abc"].
Proof.
  exact (probe_sends_for_any_url (VObject [("client_id", VString "abc")]) (fun _ => Ok "user")
           (fun _ => Some (VObject [("kind", VString "user")])) "https://example.com" []
           (VString "abc") eq_refl).
Defined.

(** A track with an MP3 format and then an Opus format. *)
Lemma stream_last_format_witness :
  stream_from_info (VObject [("client_id", VString "abc")])
    (fun _ => Ok "signed") (fun _ => Some (VObject [("url", VString "https://cdn/x")]))
    (fun _ => VArray [VObject [("url", VString "https://api/t/0");
                               ("format", VObject [("mime_type", VString "audio/mpeg")])];
                      VObject [("url", VString "https://api/t/1");
                               ("format", VObject [("mime_type", VString "audio/ogg")])]])
    (NewTrack VNull) [] =
  (Ok (NewStream (VString "https://cdn/x") OggOpus),
   [Requested "https://api/t/1?client_id=abc";
    ConstructedStream (NewStream (VString "https://cdn/x") OggOpus)]).
Proof.
  exact (proj1 (stream_last_format (VObject [("client_id", VString "abc")])
                  (fun _ => Ok "signed")
                  (fun _ => Some (VObject [("url", VString "https://cdn/x")]))
                  (fun _ => VArray [VObject [("url", VString "https://api/t/0");
                                             ("format", VObject [("mime_type", VString "audio/mpeg")])];
                                    VObject [("url", VString "https://api/t/1");
                                             ("format", VObject [("mime_type", VString "audio/ogg")])]])
                  (NewTrack VNull) [])
           [VObject [("url", VString "https://api/t/0");
                     ("format", VObject [("mime_type", VString "audio/mpeg")])]]
           (VObject [("url", VString "https://api/t/1");
                     ("format", VObject [("mime_type", VString "audio/ogg")])])
           (VString "https://api/t/1") (VString "abc") "signed"
           (VObject [("url", VString "https://cdn/x")]) "audio/ogg"
           eq_refl eq_refl eq_refl eq_refl eq_refl eq_refl eq_refl).
Defined.

(** A track response: the probe says [track] and the resolver returns it. *)
Lemma probe_agrees_with_resolver_witness :
  exists json_data,
    fst (soundcloud (VObject [("client_id", VString "abc")]) (fun _ => Ok "track")
           (fun _ => Some (VObject [("kind", VString "track")])) "snd.sc/abc" [])
    = Ok (Track (NewTrack json_data)).
Proof.
  exact (probe_agrees_with_resolver (VObject [("client_id", VString "abc")])
           (fun _ => Ok "track") (fun _ => Some (VObject [("kind", VString "track")]))
           "snd.sc/abc" [] eq_refl eq_refl).
Defined.

(** The server answers 404. *)
Lemma network_failure_propagates_witness :
  so_validate (VObject [("client_id", VString "abc")]) (fun _ => Throw (Error "404"))
    (fun _ => None) "snd.sc/abc" [] =
  (Throw (Error "404"),
   [Requested "https://api-v2.soundcloud.com/resolve?url=snd.sc/abc&client_id=abc"]).
Proof.
  exact (proj1 (network_failure_propagates (VObject [("client_id", VString "abc")])
                  (fun _ => Throw (Error "404")) (fun _ => None) (fun _ => VUndefined)
                  "snd.sc/abc" [] (VString "abc") (Error "404") eq_refl eq_refl)).
Defined.

(** The stream of a playlist URL. *)
Lemma stream_resolves_first_witness :
  stream (VObject [("client_id", VString "abc")]) (fun _ => Ok "playlist")
    (fun _ => Some (VObject [("kind", VString "playlist")])) (fun _ => VUndefined)
    "snd.sc/abc" [] =
  (Throw Playlist_stream,
   [Requested "https://api-v2.soundcloud.com/resolve?url=snd.sc/abc&client_id=abc";
    Constructed (Playlist (NewPlaylist (VObject [("kind", VString "playlist")])
                             (VString "abc")))]).
Proof.
  exact (proj1 (stream_resolves_first (VObject [("client_id", VString "abc")])
                  (fun _ => Ok "playlist")
                  (fun _ => Some (VObject [("kind", VString "playlist")]))
                  (fun _ => VUndefined) "snd.sc/abc" [] (VString "abc") "playlist"
                  (VObject [("kind", VString "playlist")])
                  eq_refl eq_refl eq_refl eq_refl eq_refl) eq_refl).
Defined.

End StreamFacts.
